(** * helperFunctions.ts of fetch-wordpress-api, embedded in Rocq

    The module builds query parameters, extracts the slug of a link,
    resolves redirected posts by a second lookup and attaches image links
    to posts.

    - Objects and arrays live in a store and are referred to by location,
      so that "the same object" and "mutated in place" can be stated.
    - A function is a computation in a state and exception monad; for an
      [async] function the outcome is how its promise settles.
    - [Promise.all(items.map(callback))] takes the order in which the
      callbacks resume as a parameter; the call of a collaborator and the
      code after its [await] run as one step of that order.
    - [new URL], string conversion and the two functions imported from
      [./index] are parameters: the statements hold for every host. *)

From Stdlib Require Import ZArith Lia Ascii.
From stdpp Require Import base option list gmap strings pretty.

Local Open Scope string_scope.

(** ** Values, store and outcomes *)

(** Locations of the store. *)
Abbreviation loc := nat (only parsing).

(** A JavaScript value.  Numbers are the integer-valued ones the module
    handles (identifiers and counts); objects and arrays are references. *)
Inductive value :=
| VUndef
| VNull
| VBool (b : bool)
| VNum (n : Z)
| VStr (s : string)
| VObj (l : loc)
| VArr (l : loc).

#[global] Instance value_eq_dec : EqDecision value.
Proof. solve_decision. Defined.

(** What a [throw] or a rejected promise carries. *)
Inductive exn :=
| TypeError (msg : string)
| Rejected (reason : value).

(** The store: own properties of every object, elements of every array,
    and the lines written with [console.error]. *)
Record state := mkState {
  objs : gmap loc (gmap string value);
  arrs : gmap loc (list value);
  console : list (string * exn)
}.

Inductive outcome (A : Type) :=
| Return (a : A)
| Throw (e : exn).
Arguments Return {A} a.
Arguments Throw {A} e.

Definition M (A : Type) : Type := state -> outcome A * state.

Definition ret {A} (a : A) : M A := fun s => (Return a, s).

Definition throw {A} (e : exn) : M A := fun s => (Throw e, s).

Definition bind {A B} (m : M A) (k : A -> M B) : M B :=
  fun s => match m s with
           | (Return a, s1) => k a s1
           | (Throw e, s1) => (Throw e, s1)
           end.

(** [try { body } catch (error) { handler }] *)
Definition try_catch {A} (body : M A) (handler : exn -> M A) : M A :=
  fun s => match body s with
           | (Return a, s1) => (Return a, s1)
           | (Throw e, s1) => handler e s1
           end.

(** Reading the store, without changing it. *)
Definition read {A} (f : state -> A) : M A := fun s => (Return (f s), s).

Definition eval {A} (f : state -> outcome A) : M A := fun s => (f s, s).

Declare Scope js_scope.
Delimit Scope js_scope with js.
Notation "x <- m ;; k" := (bind m (fun x => k))
  (at level 100, m at next level, right associativity) : js_scope.
Notation "m ;;; k" := (bind m (fun _ => k))
  (at level 100, right associativity) : js_scope.
Local Open Scope js_scope.

(** A location no cell of the map uses. *)
Definition fresh_loc {A} (m : gmap loc A) : loc :=
  S (max_list (map fst (map_to_list m))).

Definition obj_at (s : state) (l : loc) : gmap string value :=
  default ∅ (objs s !! l).

Definition arr_at (s : state) (a : loc) : list value :=
  default [] (arrs s !! a).

(** [{ ... }]: a new object. *)
Definition alloc_obj (o : gmap string value) : M loc :=
  fun s => let l := fresh_loc (objs s) in
           (Return l, mkState (<[l := o]> (objs s)) (arrs s) (console s)).

(** A new array. *)
Definition alloc_arr (es : list value) : M loc :=
  fun s => let a := fresh_loc (arrs s) in
           (Return a, mkState (objs s) (<[a := es]> (arrs s)) (console s)).

(** [arr[i] = v] for an index inside the array. *)
Definition arr_set (a : loc) (i : nat) (v : value) : M unit :=
  fun s => (Return tt,
            mkState (objs s) (alter (fun es => <[i := v]> es) a (arrs s))
                    (console s)).

(** [console.error(label, error)] *)
Definition logged (label : string) (e : exn) (s : state) : state :=
  mkState (objs s) (arrs s) (console s ++ [(label, e)]).

Definition console_error (label : string) (e : exn) : M unit :=
  fun s => (Return tt, logged label e s).

(** The property [k] of an object with the properties [o]. *)
Definition field (o : gmap string value) (k : string) : value :=
  default VUndef (o !! k).

(** Truthiness, as [if], [&&] and [||] test it. *)
Definition truthy (v : value) : bool :=
  match v with
  | VUndef | VNull => false
  | VBool b => b
  | VNum n => negb (n =? 0)%Z
  | VStr s => negb (String.eqb s "")
  | VObj _ | VArr _ => true
  end.

(** The characters of a string, one string each. *)
Fixpoint chars (s : string) : list string :=
  match s with
  | EmptyString => []
  | String c s' => String c EmptyString :: chars s'
  end.

(** [v.k] for a named property [k].  Reading a property of [undefined] or
    [null] throws; data objects have their own properties only; arrays and
    strings have [length]. *)
Definition prop (s : state) (v : value) (k : string) : outcome value :=
  match v with
  | VUndef => Throw (TypeError ("Cannot read properties of undefined (reading '" ++ k ++ "')"))
  | VNull => Throw (TypeError ("Cannot read properties of null (reading '" ++ k ++ "')"))
  | VObj l => Return (field (obj_at s l) k)
  | VArr a => if String.eqb k "length"
              then Return (VNum (Z.of_nat (length (arr_at s a))))
              else Return VUndef
  | VStr x => if String.eqb k "length"
              then Return (VNum (Z.of_nat (String.length x)))
              else Return VUndef
  | VBool _ | VNum _ => Return VUndef
  end.

Definition get_prop (v : value) (k : string) : M value :=
  eval (fun s => prop s v k).

(** [v[i]] *)
Definition index (s : state) (v : value) (i : nat) : outcome value :=
  match v with
  | VUndef => Throw (TypeError ("Cannot read properties of undefined (reading '" ++ pretty i ++ "')"))
  | VNull => Throw (TypeError ("Cannot read properties of null (reading '" ++ pretty i ++ "')"))
  | VArr a => Return (default VUndef (arr_at s a !! i))
  | VObj l => Return (field (obj_at s l) (pretty i))
  | VStr x => Return (from_option VStr VUndef (chars x !! i))
  | VBool _ | VNum _ => Return VUndef
  end.

Definition get_index (v : value) (i : nat) : M value :=
  eval (fun s => index s v i).

(** The own enumerable properties [{...v}] copies. *)
Definition indexed (es : list value) : gmap string value :=
  list_to_map (imap (fun i e => (pretty i, e)) es).

Definition own_props (s : state) (v : value) : gmap string value :=
  match v with
  | VObj l => obj_at s l
  | VArr a => indexed (arr_at s a)
  | VStr x => indexed (VStr <$> chars x)
  | VUndef | VNull | VBool _ | VNum _ => ∅
  end.

(** ** The host and the collaborators

    [new URL] and string conversion belong to the JavaScript host;
    [fetchPageBySlug] and [fetchData] are imported from [./index].  The
    functions below are stated over any of them. *)

(** The part of a parsed URL the module reads. *)
Record URL := mkURL { pathname : string }.

(** What a by-slug lookup resolves to: the declared array of pages, or one
    of the falsy values the guard [redirectedPost && ...] allows for. *)
Inductive fetched :=
| FUndefined
| FNull
| FArray (a : loc).

Definition fetched_value (r : fetched) : value :=
  match r with
  | FUndefined => VUndef
  | FNull => VNull
  | FArray a => VArr a
  end.

Class Host := {
  (** [new URL(text)]; [None] when the constructor throws. *)
  parse_url : string -> option URL;
  (** String conversion of a value that is not a string. *)
  ToString : state -> value -> string;
  (** [fetchPageBySlug(slug)], awaited. *)
  fetchPageBySlug : value -> M fetched;
  (** [fetchData(path)], awaited. *)
  fetchData : string -> M value
}.

(** ** Strings *)

(** [text.split(sep)] for a one-character separator. *)
Fixpoint split (sep : Ascii.ascii) (text : string) : list string :=
  match text with
  | EmptyString => [EmptyString]
  | String c rest =>
      if Ascii.eqb c sep then EmptyString :: split sep rest
      else match split sep rest with
           | piece :: pieces => String c piece :: pieces
           | [] => [String c EmptyString]
           end
  end.

(** [pieces.join(sep)] on strings. *)
Definition join (sep : string) (pieces : list string) : string :=
  String.concat sep pieces.

(** [[...new Set(items)]]: a set keeps the first of equal values, in
    insertion order. *)
Definition uniq (items : list value) : list value :=
  foldl (fun (seen : list value) x =>
           if decide (x ∈ seen) then seen else (seen ++ [x])%list) [] items.

Section Helpers.
Context {host : Host}.

(** The text a value stands for where a string is expected. *)
Definition to_text (s : state) (v : value) : string :=
  match v with
  | VStr x => x
  | _ => ToString s v
  end.

(** The text of an array element in [join]. *)
Definition join_text (s : state) (v : value) : string :=
  match v with
  | VUndef | VNull => ""
  | _ => to_text s v
  end.

(** [endpointParamsBuilder(fields, quantity)]: the properties of the
    object it returns. *)
Definition endpointParamsBuilder (s : state) (fields quantity : value)
  : gmap string value :=
  let endpointParams : gmap string value := ∅ in
  let endpointParams :=
    match fields with
    | VArr a =>
        match arr_at s a with
        | [] => endpointParams
        | es => let uniqueFields := uniq es in
                <["_fields" := VStr (join "," (join_text s <$> uniqueFields))]>
                  endpointParams
        end
    | _ => endpointParams
    end in
  match quantity with
  | VNum _ => <["per_page" := quantity]> endpointParams
  | _ => endpointParams
  end.

(** [slugExtractor(link)] *)
Definition slugExtractor (link : string) : outcome value :=
  match parse_url link with
  | None => Throw (TypeError "Invalid URL")
  | Some url => Return (from_option VStr VUndef (split "/"%char (pathname url) !! 1%nat))
  end.

(** The callback [detectRedirects] maps over the posts: first the body
    of its [try], then the callback with its [catch]. *)
Definition redirect_attempt (post : value) : M value :=
    (link <- get_prop post "link";;
     linkSlug <- eval (fun s => slugExtractor (to_text s link));;
     slug <- get_prop post "slug";;
     if decide (slug ≠ linkSlug) then
       redirectedPost <- fetchPageBySlug linkSlug;;
       match redirectedPost with
       | FArray a =>
           results <- read (fun s => arr_at s a);;
           match results with
           | first :: _ =>
               target <- read (fun s => own_props s first);;
               categories <- get_prop post "categories";;
               image <- get_prop post "image";;
               title <- get_prop post "title";;
               rendered <- get_prop title "rendered";;
               t <- alloc_obj {[ "rendered" := rendered ]};;
               o <- alloc_obj (<["title" := VObj t]>
                                 (<["image" := image]>
                                    (<["categories" := categories]> target)));;
               arr_set a 0 (VObj o)
           | [] => ret tt
           end;;;
           ret (VArr a)
       | FUndefined | FNull => ret (fetched_value redirectedPost)
       end
     else ret post).

Definition redirect_post (post : value) : M value :=
  try_catch
    (redirect_attempt post)
    (fun error =>
       console_error "Error in detectRedirects:" error;;;
       ret post).

(** [Promise.all(items.map(callback))], the callbacks resuming in the
    order [sched] lists their indices: slot [i] of the result is what
    the callback returned for item [i]; the first rejection rejects the
    whole, the other callbacks still run.  Every callback of this module
    reads its item, calls one collaborator and goes on after the
    [await]; [sched] orders these continuations. *)
Fixpoint settle_all (callback : value -> M value) (items : list value)
    (sched : list nat) (acc : outcome (list value)) : M (list value) :=
  fun s =>
    match sched with
    | [] => (acc, s)
    | i :: sched' =>
        match items !! i with
        | None => settle_all callback items sched' acc s
        | Some item =>
            let '(r, s1) := callback item s in
            let acc' := match acc, r with
                        | Return slots, Return v => Return (<[i := v]> slots)
                        | Return _, Throw e => Throw e
                        | Throw e, _ => Throw e
                        end in
            settle_all callback items sched' acc' s1
        end
    end.

Definition Promise_all_map (callback : value -> M value)
    (items : list value) (sched : list nat) : M (list value) :=
  settle_all callback items sched (Return (replicate (length items) VUndef)).

(** [values.flat()]: arrays among the values are replaced by their elements. *)
Definition flat_item (s : state) (v : value) : list value :=
  match v with
  | VArr a => arr_at s a
  | _ => [v]
  end.

Definition flat (s : state) (vs : list value) : list value :=
  vs ≫= flat_item s.

(** [detectRedirects(posts)] *)
Definition detectRedirects (posts : loc) (sched : list nat) : M value :=
  items <- read (fun s => arr_at s posts);;
  newPosts <- Promise_all_map redirect_post items sched;;
  flattened <- read (fun s => flat s newPosts);;
  out <- alloc_arr flattened;;
  ret (VArr out).

(** [getImageLink(featured_media)]: the body of its [try], then the
    function with its [catch]. *)
Definition image_link_attempt (featured_media : value) : M value :=
    (path <- read (fun s => "media" ++ "/" ++ to_text s featured_media);;
     imageMetaInfo <- fetchData path;;
     entry <- get_index imageMetaInfo 0;;
     media_details <- get_prop entry "media_details";;
     sizes <- get_prop media_details "sizes";;
     full <- get_prop sizes "full";;
     get_prop full "source_url").

Definition getImageLink (featured_media : value) : M value :=
  try_catch
    (image_link_attempt featured_media)
    (fun error =>
       console_error "Error in getImageLink:" error;;;
       throw error).

(** The callback [addImagesToPost] maps over the items. *)
Definition add_image_attempt (post : value) : M value :=
    (featured_media <- get_prop post "featured_media";;
     imageLink <- getImageLink featured_media;;
     copied <- read (fun s => own_props s post);;
     o <- alloc_obj (<["image" := imageLink]> copied);;
     ret (VObj o)).

Definition add_image (post : value) : M value :=
  try_catch
    (add_image_attempt post)
    (fun error =>
       console_error "Error in addImageToPost:" error;;;
       ret post).

(** [addImagesToPost(data)] *)
Definition addImagesToPost (data : loc) (sched : list nat) : M value :=
  first <- get_index (VArr data) 0;;
  image <- get_prop first "image";;
  done_already <-
    (if truthy image then ret true
     else featured_media <- get_prop first "featured_media";;
          ret (bool_decide (featured_media = VNum 0)));;
  if (done_already : bool) then ret (VArr data)
  else
    items <- read (fun s => arr_at s data);;
    postsWithImages <- Promise_all_map add_image items sched;;
    out <- alloc_arr postsWithImages;;
    ret (VArr out).

End Helpers.

Section Posts.
Context {host : Host}.

(** A post whose stored slug is the slug of its link. *)
Definition resolved (o : gmap string value) : Prop :=
  exists link, o !! "link" = Some (VStr link) /\
               slugExtractor link = Return (field o "slug").

(** A post for which the [try] of the callback throws: its link is no
    URL, or the lookup of the slug of its link is rejected. *)
Definition fails (o : gmap string value) : Prop :=
  exists link, o !! "link" = Some (VStr link) /\
    (parse_url link = None \/
     exists linkSlug, slugExtractor link = Return linkSlug /\
                      field o "slug" ≠ linkSlug /\
                      forall st, exists e st1,
                        fetchPageBySlug linkSlug st = (Throw e, st1)).
End Posts.

(** ** Notions the statements use *)

(** The characters of [text] before its first [sep]. *)
Fixpoint upto (sep : Ascii.ascii) (text : string) : string :=
  match text with
  | EmptyString => EmptyString
  | String c rest => if Ascii.eqb c sep then EmptyString else String c (upto sep rest)
  end.

(** The list without the later occurrences of its elements. *)
Fixpoint first_occurrences (items : list value) : list value :=
  match items with
  | [] => []
  | x :: rest => x :: filter (fun y => y ≠ x) (first_occurrences rest)
  end.

Definition nullish (v : value) : Prop := v = VUndef \/ v = VNull.

(** One read: [v[i]] or [v.k]. *)
Inductive step :=
| At (i : nat)
| Dot (k : string).

Definition read_step (s : state) (v : value) (st : step) : outcome value :=
  match st with
  | At i => index s v i
  | Dot k => prop s v k
  end.

(** A chain of reads [v[i].k1.k2...]. *)
Fixpoint walk (s : state) (v : value) (path : list step) : outcome value :=
  match path with
  | [] => Return v
  | st :: path' =>
      match read_step s v st with
      | Return v' => walk s v' path'
      | Throw e => Throw e
      end
  end.

(** The reads that lead from the media metadata to its full-size entry. *)
Definition full_size_path : list step :=
  [At 0; Dot "media_details"; Dot "sizes"; Dot "full"].

(** Something on the way to the full-size entry, or that entry itself, is
    [undefined] or [null]. *)
Definition missing (s : state) (info : value) : Prop :=
  exists before after v,
    full_size_path = (before ++ after)%list /\
    walk s info before = Return v /\ nullish v.

(** A computation keeps the objects when every object of the store it
    starts in is in the store it ends in, with the same properties. *)
Definition keeps_objects {A} (m : M A) : Prop :=
  forall s r s', m s = (r, s') -> objs s ⊆ objs s'.

(** The collaborators may allocate, and may hand out arrays they hold; they
    leave the objects of the store as they are. *)
Definition host_keeps_objects (host : Host) : Prop :=
  (forall slug, keeps_objects (fetchPageBySlug slug)) /\
  (forall path, keeps_objects (fetchData path)).

(** ** A host and a store for the examples *)

Definition after_prefix (p text : string) : option string :=
  if String.prefix p text
  then Some (String.substring (String.length p)
                              (String.length text - String.length p) text)
  else None.

(** Host name, then path: the path handed out starts with a slash. *)
Definition example_hierarchical (rest : string) : option URL :=
  match split "/"%char rest with
  | name :: segments =>
      if String.eqb name "" then None
      else Some (mkURL ("/" ++ join "/" segments))
  | [] => None
  end.

(** A parser for the links of the examples: [http] and [https] links, whose
    path starts with a slash, and [mailto:] addresses, whose path is the
    address. *)
Definition example_parse (text : string) : option URL :=
  match after_prefix "https://" text with
  | Some rest => example_hierarchical rest
  | None =>
      match after_prefix "http://" text with
      | Some rest => example_hierarchical rest
      | None =>
          match after_prefix "mailto:" text with
          | Some address => Some (mkURL address)
          | None => None
          end
      end
  end.

Definition example_text (s : state) (v : value) : string :=
  match v with
  | VUndef => "undefined"
  | VNull => "null"
  | VBool true => "true"
  | VBool false => "false"
  | VNum n => pretty n
  | VStr x => x
  | VObj _ => "[object Object]"
  | VArr a => join "," ((fun e => match e with VStr x => x | _ => "" end)
                          <$> arr_at s a)
  end.

(** Pages are known under the slugs [new] (one page) and [gone] (none);
    every other lookup is rejected. *)
Definition example_pages (slug : value) : M fetched :=
  eval (fun _ =>
          if decide (slug = VStr "new") then Return (FArray 3)
          else if decide (slug = VStr "gone") then Return (FArray 4)
          else Throw (Rejected (VStr "503"))).

(** Media 7 has a full size without a source URL, media 8 one with. *)
Definition example_media (path : string) : M value :=
  eval (fun _ =>
          if String.eqb path "media/7" then Return (VArr 9)
          else if String.eqb path "media/8" then Return (VArr 10)
          else Throw (Rejected (VStr "404"))).

Definition example_host : Host :=
  {| parse_url := example_parse;
     ToString := example_text;
     fetchPageBySlug := example_pages;
     fetchData := example_media |}.

Definition props (fields : list (string * value)) : gmap string value :=
  list_to_map fields.

Definition moved_post : gmap string value :=
  props [("slug", VStr "old"); ("link", VStr "https://x/new/");
         ("categories", VArr 1); ("image", VStr "i.jpg"); ("title", VObj 2);
         ("featured_media", VNum 8)].

Definition moved_title : gmap string value := props [("rendered", VStr "T")].

Definition target_page : gmap string value :=
  props [("slug", VStr "new"); ("categories", VArr 2);
         ("image", VStr "j.jpg"); ("title", VObj 4)].

Definition target_title : gmap string value :=
  props [("rendered", VStr "New"); ("raw", VStr "New")].

Definition orphan_post : gmap string value :=
  props [("slug", VStr "old-name"); ("link", VStr "https://x/gone/");
         ("title", VObj 2)].

Definition settled_post : gmap string value :=
  props [("slug", VStr "same"); ("link", VStr "https://x/same/");
         ("featured_media", VNum 0)].

Definition broken_post : gmap string value :=
  props [("slug", VStr "b"); ("link", VStr "not a url")].

Definition unlucky_post : gmap string value :=
  props [("slug", VStr "u"); ("link", VStr "https://x/down/")].

Definition bare_item : gmap string value :=
  props [("featured_media", VNum 7)].

Definition example_store : state :=
  mkState
    (list_to_map
       [(1, moved_post); (2, moved_title); (3, target_page); (4, target_title);
        (5, orphan_post); (6, settled_post); (7, broken_post);
        (8, unlucky_post); (9, bare_item);
        (10, props [("media_details", VObj 11)]);
        (11, props [("sizes", VObj 12)]);
        (12, props [("full", VObj 13)]);
        (13, props []);
        (14, props [("media_details", VObj 15)]);
        (15, props [("sizes", VObj 16)]);
        (16, props [("full", VObj 17)]);
        (17, props [("source_url", VStr "https://x/full.jpg")])])
    (list_to_map
       [(0, [VObj 1]); (1, [VNum 1]); (2, [VNum 9]); (3, [VObj 3]);
        (4, []); (5, [VObj 5]);
        (6, [VObj 6; VObj 1; VObj 7; VObj 8]);
        (7, [VObj 6; VObj 9]); (8, []);
        (9, [VObj 10]); (10, [VObj 14]);
        (11, [VStr "a"; VStr "b"; VStr "a"]);
        (12, [VObj 6; VObj 6]);
        (13, [VObj 9; VObj 1]);
        (14, [VObj 5; VObj 6])])
    [].

(** The runs the examples look at. *)
Definition scenario_run : outcome value * state :=
  detectRedirects (host := example_host) 0 [0%nat] example_store.

Definition orphan_run : outcome value * state :=
  detectRedirects (host := example_host) 5 [0%nat] example_store.

Definition mixed_run : outcome value * state :=
  detectRedirects (host := example_host) 14 [1; 0]%nat example_store.

Definition moved_run : outcome value * state :=
  redirect_post (host := example_host) (VObj 1) example_store.

Definition hollow_media_run : outcome value * state :=
  getImageLink (host := example_host) (VNum 7) example_store.

(** ** The query string parameters *)

(** A [URLSearchParams]: its name-value pairs, in order. *)
Abbreviation query := (list (string * string)) (only parsing).

(** [query.append(name, value)] adds a pair at the end. *)
Definition append (q : query) (name value : string) : query :=
  (q ++ [(name, value)])%list.

Section Query.
Context {host : Host}.

(** [queryBuilder(endpointParams)], given [Object.entries(endpointParams)]:
    the properties of the object in property order.  [append] takes the
    text of the value. *)
Definition queryBuilder (s : state) (entries : list (string * value)) : query :=
  foldl (fun q '(key, value) => append q key (to_text s value)) [] entries.

(** The entries of the object [endpointParamsBuilder] returns, in the
    order in which it assigns them. *)
Definition endpointParams_entries (s : state) (fields quantity : value)
  : list (string * value) :=
  let endpointParams : list (string * value) := [] in
  let endpointParams :=
    match fields with
    | VArr a =>
        match arr_at s a with
        | [] => endpointParams
        | es => let uniqueFields := uniq es in
                (endpointParams ++
                 [("_fields", VStr (join "," (join_text s <$> uniqueFields)))])%list
        end
    | _ => endpointParams
    end in
  match quantity with
  | VNum _ => (endpointParams ++ [("per_page", quantity)])%list
  | _ => endpointParams
  end.
End Query.

(** [c] occurs in [text]. *)
Fixpoint occurs (c : Ascii.ascii) (text : string) : bool :=
  match text with
  | EmptyString => false
  | String c' rest => Ascii.eqb c' c || occurs c rest
  end.

(** ** More hosts and stores for the examples *)

(** A host whose lookups all resolve to [undefined] and whose media
    fetches are all rejected. *)
Definition silent_host : Host :=
  {| parse_url := example_parse;
     ToString := example_text;
     fetchPageBySlug := fun _ => eval (fun _ => Return FUndefined);
     fetchData := fun _ => eval (fun _ => Throw (Rejected (VStr "offline"))) |}.

(** The example store with two pages under the slug [new]. *)
Definition wide_store : state :=
  mkState (objs example_store)
          (<[3%nat := [VObj 3; VObj 6]]> (arrs example_store))
          [].

(** The example store with one more post, at location 20, which links to
    [new] and has no title. *)
Definition untitled_post : gmap string value :=
  props [("slug", VStr "old"); ("link", VStr "https://x/new/")].

Definition untitled_store : state :=
  mkState (<[20%nat := untitled_post]> (objs example_store))
          (arrs example_store)
          [].

(** The example store with a list, at location 20, of a post with a broken
    link, a resolved post and a post whose lookup is rejected. *)
Definition troubled_store : state :=
  mkState (objs example_store)
          (<[20%nat := [VObj 7; VObj 6; VObj 8]]> (arrs example_store))
          [].

(** * Lemmas *)

(** ** The model on small inputs *)

Example split_path : split "/"%char "/my-post/" = [""; "my-post"; ""].
Proof. reflexivity. Qed.

Example split_empty : split "/"%char "" = [""].
Proof. reflexivity. Qed.

Example uniq_fields :
  uniq [VStr "a"; VStr "b"; VStr "a"] = [VStr "a"; VStr "b"].
Proof. reflexivity. Qed.

Example example_parse_post :
  example_parse "https://example.com/my-post/" = Some (mkURL "/my-post/").
Proof. reflexivity. Qed.

Example example_parse_bare : example_parse "https://example.com" = Some (mkURL "/").
Proof. reflexivity. Qed.

Example example_parse_text : example_parse "not a url" = None.
Proof. reflexivity. Qed.

(** ** The store *)

Lemma fresh_loc_unused {A} (m : gmap loc A) : m !! fresh_loc m = None.
Proof.
  destruct (m !! fresh_loc m) as [x|] eqn:Hx; [|done].
  exfalso.
  assert (Hin : fresh_loc m ∈ map fst (map_to_list m)).
  { apply list_elem_of_fmap. exists (fresh_loc m, x). split; [done|].
    by apply elem_of_map_to_list. }
  apply max_list_elem_of_le in Hin. unfold fresh_loc in Hin. lia.
Qed.

Create HintDb keeps.

Lemma keeps_ret {A} (a : A) : keeps_objects (ret a).
Proof. intros s r s' [= _ <-]. reflexivity. Qed.

Lemma keeps_throw {A} (e : exn) : keeps_objects (@throw A e).
Proof. intros s r s' [= _ <-]. reflexivity. Qed.

Lemma keeps_read {A} (f : state -> A) : keeps_objects (read f).
Proof. intros s r s' [= _ <-]. reflexivity. Qed.

Lemma keeps_eval {A} (f : state -> outcome A) : keeps_objects (eval f).
Proof. intros s r s' [= _ <-]. reflexivity. Qed.

Lemma keeps_get_prop v k : keeps_objects (get_prop v k).
Proof. apply keeps_eval. Qed.

Lemma keeps_get_index v i : keeps_objects (get_index v i).
Proof. apply keeps_eval. Qed.

Lemma keeps_bind {A B} (m : M A) (k : A -> M B) :
  keeps_objects m -> (forall a, keeps_objects (k a)) -> keeps_objects (bind m k).
Proof.
  intros Hm Hk s r s' H. unfold bind in H.
  destruct (m s) as [[a|e] s1] eqn:E.
  - etrans; [exact (Hm _ _ _ E) | exact (Hk _ _ _ _ H)].
  - injection H as _ <-. exact (Hm _ _ _ E).
Qed.

Lemma keeps_try_catch {A} (body : M A) (handler : exn -> M A) :
  keeps_objects body -> (forall e, keeps_objects (handler e)) ->
  keeps_objects (try_catch body handler).
Proof.
  intros Hb Hh s r s' H. unfold try_catch in H.
  destruct (body s) as [[a|e] s1] eqn:E.
  - injection H as _ <-. exact (Hb _ _ _ E).
  - etrans; [exact (Hb _ _ _ E) | exact (Hh _ _ _ _ H)].
Qed.

Lemma keeps_alloc_obj o : keeps_objects (alloc_obj o).
Proof.
  intros s r s' [= _ <-]. simpl.
  apply insert_subseteq, fresh_loc_unused.
Qed.

Lemma keeps_alloc_arr es : keeps_objects (alloc_arr es).
Proof. intros s r s' [= _ <-]. reflexivity. Qed.

Lemma keeps_arr_set a i v : keeps_objects (arr_set a i v).
Proof. intros s r s' [= _ <-]. reflexivity. Qed.

Lemma keeps_console_error label e : keeps_objects (console_error label e).
Proof. intros s r s' [= _ <-]. reflexivity. Qed.

#[global] Hint Resolve keeps_ret keeps_throw keeps_get_prop keeps_get_index
  keeps_alloc_obj keeps_alloc_arr keeps_arr_set keeps_console_error
  keeps_read keeps_eval : keeps.

Ltac keeps :=
  repeat first
    [ progress eauto with keeps
    | apply keeps_bind; [| intros ?]
    | apply keeps_try_catch; [| intros ?]
    | match goal with
      | |- keeps_objects (if ?b then _ else _) => destruct b
      | |- keeps_objects (match ?x with _ => _ end) => destruct x
      end ].

Section Frame.
Context {host : Host} (frame : host_keeps_objects host).

Lemma keeps_redirect_post post : keeps_objects (redirect_post post).
Proof.
  destruct frame as [Hp _]. unfold redirect_post, redirect_attempt. keeps.
Qed.

Lemma keeps_getImageLink fm : keeps_objects (getImageLink fm).
Proof.
  destruct frame as [_ Hd]. unfold getImageLink, image_link_attempt. keeps.
Qed.

Lemma keeps_add_image post : keeps_objects (add_image post).
Proof.
  unfold add_image, add_image_attempt. pose proof keeps_getImageLink. keeps.
Qed.

Lemma keeps_settle_all callback items sched acc :
  (forall x, keeps_objects (callback x)) ->
  keeps_objects (settle_all callback items sched acc).
Proof.
  intros Hcb. revert acc.
  induction sched as [|i sched IH]; intros acc s r s' H; simpl in H.
  - by injection H as _ <-.
  - destruct (items !! i) as [item|]; [|by eapply IH].
    destruct (callback item s) as [r1 s1] eqn:E.
    etrans; [exact (Hcb _ _ _ _ E) | by eapply IH].
Qed.

Lemma keeps_detectRedirects posts sched :
  keeps_objects (detectRedirects posts sched).
Proof.
  unfold detectRedirects, Promise_all_map.
  pose proof keeps_redirect_post. pose proof keeps_settle_all. keeps.
Qed.

Lemma keeps_addImagesToPost data sched :
  keeps_objects (addImagesToPost data sched).
Proof.
  unfold addImagesToPost, Promise_all_map.
  pose proof keeps_add_image. pose proof keeps_settle_all. keeps.
Qed.
End Frame.

(** ** Running the callbacks *)

Section Settle.
Context {host : Host}.

(** When every callback returns, keeps an invariant [P] of the store and
    relates its result to its item by [R], then so does every slot of
    the settled array, whatever the order. *)
Lemma settle_all_slots (P : state -> Prop) (R : value -> value -> Prop)
    (callback : value -> M value) (items : list value) :
  (forall x s, x ∈ items -> P s ->
     exists v s', callback x s = (Return v, s') /\ P s' /\ R x v) ->
  forall sched slots s,
    P s -> length slots = length items ->
    exists slots' s',
      settle_all callback items sched (Return slots) s = (Return slots', s') /\
      P s' /\ length slots' = length items /\
      forall i x, items !! i = Some x ->
        (i ∈ sched -> exists v, slots' !! i = Some v /\ R x v) /\
        (i ∉ sched -> slots' !! i = slots !! i).
Proof.
  intros Hcb. induction sched as [|i sched IH]; intros slots s HP Hlen; simpl.
  - exists slots, s. split; [done|]. split; [done|]. split; [done|].
    intros j x Hj. split; [|done].
    intros Hin. by apply elem_of_nil in Hin.
  - destruct (items !! i) as [item|] eqn:Hitem.
    + assert (Hmem : item ∈ items) by (by eapply list_elem_of_lookup_2).
      destruct (Hcb item s Hmem HP) as (v & s1 & -> & HP1 & HR).
      destruct (IH (<[i := v]> slots) s1 HP1) as (slots' & s' & -> & HP' & Hlen' & Hslots).
      { by rewrite length_insert. }
      exists slots', s'. split; [done|]. split; [done|]. split; [done|].
      intros j x Hj. destruct (Hslots j x Hj) as [Hyes Hno]. split.
      * intros Hin. destruct (decide (j ∈ sched)) as [Hs|Hs]; [by apply Hyes|].
        apply elem_of_cons in Hin as [->|?]; [|done].
        exists v. split; [|congruence].
        rewrite (Hno Hs).
        apply list_lookup_insert_eq. rewrite Hlen.
        by eapply lookup_lt_Some.
      * intros Hnin. apply not_elem_of_cons in Hnin as [Hne Hnin].
        rewrite (Hno Hnin). by apply list_lookup_insert_ne.
    + destruct (IH slots s HP Hlen) as (slots' & s' & -> & HP' & Hlen' & Hslots).
      exists slots', s'. split; [done|]. split; [done|]. split; [done|].
      intros j x Hj. destruct (Hslots j x Hj) as [Hyes Hno]. split.
      * intros Hin. apply elem_of_cons in Hin as [->|?]; [congruence|].
        by apply Hyes.
      * intros Hnin. apply not_elem_of_cons in Hnin as [Hne Hnin].
        by apply Hno.
Qed.

(** The same for [Promise.all] over the whole list, when every callback
    is resumed. *)
Lemma Promise_all_map_slots (P : state -> Prop) (R : value -> value -> Prop)
    (callback : value -> M value) (items : list value) sched s :
  (forall x s, x ∈ items -> P s ->
     exists v s', callback x s = (Return v, s') /\ P s' /\ R x v) ->
  sched ≡ₚ seq 0 (length items) ->
  P s ->
  exists slots s',
    Promise_all_map callback items sched s = (Return slots, s') /\
    P s' /\ Forall2 R items slots.
Proof.
  intros Hcb Hperm HP.
  destruct (settle_all_slots P R callback items Hcb sched
              (replicate (length items) VUndef) s HP)
    as (slots & s' & Hrun & HP' & Hlen & Hslots).
  { apply length_replicate. }
  exists slots, s'. repeat split; try done.
  apply Forall2_same_length_lookup. split; [done|].
  intros i x v Hx Hv.
  destruct (Hslots i x Hx) as [Hin _].
  destruct Hin as (v' & Hv' & HR).
  - rewrite Hperm. apply elem_of_seq. apply lookup_lt_Some in Hx. lia.
  - congruence.
Qed.

(** One item. *)
Lemma Promise_all_map_single (callback : value -> M value) x s :
  Promise_all_map callback [x] [0%nat] s
  = match callback x s with
    | (Return v, s1) => (Return [v], s1)
    | (Throw e, s1) => (Throw e, s1)
    end.
Proof.
  unfold Promise_all_map. simpl.
  by destruct (callback x s) as [[v|e] s1].
Qed.
End Settle.

(** ** One post through [detectRedirects] *)

Section RedirectPost.
Context {host : Host}.

Lemma prop_obj s l o k :
  objs s !! l = Some o -> prop s (VObj l) k = Return (field o k).
Proof. intros H. unfold prop, obj_at. by rewrite H. Qed.

Lemma arr_at_cons s a first rest :
  arr_at s a = first :: rest -> arrs s !! a = Some (first :: rest).
Proof. unfold arr_at. destruct (arrs s !! a); simpl; congruence. Qed.

(** Whatever the body of the [try] throws, the callback returns the post. *)
Lemma redirect_post_caught post s e s1 :
  redirect_attempt post s = (Throw e, s1) ->
  redirect_post post s
  = (Return post, logged "Error in detectRedirects:" e s1).
Proof. intros H. unfold redirect_post, try_catch. by rewrite H. Qed.

Lemma redirect_post_passed post s v s1 :
  redirect_attempt post s = (Return v, s1) ->
  redirect_post post s = (Return v, s1).
Proof. intros H. unfold redirect_post, try_catch. by rewrite H. Qed.

Lemma redirect_post_returns post s :
  exists v s', redirect_post post s = (Return v, s').
Proof.
  destruct (redirect_attempt post s) as [[v|e] s1] eqn:E.
  - eauto using redirect_post_passed.
  - eauto using redirect_post_caught.
Qed.

Section OnePost.
Variables (s : state) (l : loc) (o : gmap string value) (link : string).
Hypothesis Hobj : objs s !! l = Some o.
Hypothesis Hlink : o !! "link" = Some (VStr link).

Lemma redirect_attempt_start :
  redirect_attempt (VObj l) s
  = match slugExtractor link with
    | Return linkSlug =>
        (if decide (field o "slug" ≠ linkSlug) then
           redirectedPost <- fetchPageBySlug linkSlug;;
           match redirectedPost with
           | FArray a =>
               results <- read (fun s => arr_at s a);;
               match results with
               | first :: _ =>
                   target <- read (fun s => own_props s first);;
                   categories <- get_prop (VObj l) "categories";;
                   image <- get_prop (VObj l) "image";;
                   title <- get_prop (VObj l) "title";;
                   rendered <- get_prop title "rendered";;
                   t <- alloc_obj {[ "rendered" := rendered ]};;
                   o <- alloc_obj (<["title" := VObj t]>
                                     (<["image" := image]>
                                        (<["categories" := categories]> target)));;
                   arr_set a 0 (VObj o)
               | [] => ret tt
               end;;;
               ret (VArr a)
           | FUndefined | FNull => ret (fetched_value redirectedPost)
           end
         else ret (VObj l)) s
    | Throw e => (Throw e, s)
    end.
Proof.
  unfold redirect_attempt, bind at 1, get_prop at 1, eval at 1.
  rewrite (prop_obj _ _ _ _ Hobj). unfold field at 1. rewrite Hlink. simpl.
  unfold bind at 1, eval at 1. simpl.
  destruct (slugExtractor link) as [linkSlug|e]; [|done].
  unfold bind at 1, get_prop at 1, eval at 1.
  by rewrite (prop_obj _ _ _ _ Hobj).
Qed.

(** The slug is the one of the link: the post itself is returned and
    nothing is fetched, written or allocated. *)
Lemma redirect_post_resolved :
  slugExtractor link = Return (field o "slug") ->
  redirect_post (VObj l) s = (Return (VObj l), s).
Proof.
  intros Hslug. apply redirect_post_passed.
  rewrite redirect_attempt_start, Hslug.
  by rewrite decide_False by (intros H; by apply H).
Qed.

(** The link is no URL. *)
Lemma redirect_post_invalid_link :
  parse_url link = None ->
  redirect_post (VObj l) s
  = (Return (VObj l),
     logged "Error in detectRedirects:" (TypeError "Invalid URL") s).
Proof.
  intros Hparse. apply redirect_post_caught.
  rewrite redirect_attempt_start. unfold slugExtractor. by rewrite Hparse.
Qed.

Variable linkSlug : value.
Hypothesis Hslug : slugExtractor link = Return linkSlug.
Hypothesis Hdiff : field o "slug" ≠ linkSlug.

(** The lookup is rejected. *)
Lemma redirect_post_rejected e s1 :
  fetchPageBySlug linkSlug s = (Throw e, s1) ->
  redirect_post (VObj l) s
  = (Return (VObj l), logged "Error in detectRedirects:" e s1).
Proof.
  intros Hfetch. apply redirect_post_caught.
  rewrite redirect_attempt_start, Hslug, decide_True by done.
  unfold bind. by rewrite Hfetch.
Qed.

(** The lookup resolves to an empty array: the callback returns that
    array. *)
Lemma redirect_post_no_result a s1 :
  fetchPageBySlug linkSlug s = (Return (FArray a), s1) ->
  arr_at s1 a = [] ->
  redirect_post (VObj l) s = (Return (VArr a), s1).
Proof.
  intros Hfetch Hempty. apply redirect_post_passed.
  rewrite redirect_attempt_start, Hslug, decide_True by done.
  unfold bind at 1. rewrite Hfetch.
  unfold bind, read, ret. by rewrite Hempty.
Qed.

(** The lookup resolves to no array at all. *)
Lemma redirect_post_falsy r s1 :
  fetchPageBySlug linkSlug s = (Return r, s1) ->
  (r = FUndefined \/ r = FNull) ->
  redirect_post (VObj l) s = (Return (fetched_value r), s1).
Proof.
  intros Hfetch Hr. apply redirect_post_passed.
  rewrite redirect_attempt_start, Hslug, decide_True by done.
  unfold bind at 1. rewrite Hfetch. by destruct Hr as [-> | ->].
Qed.

(** The lookup resolves to an array with a first element: the merge. *)
Lemma redirect_post_merge a s1 first rest o1 rendered :
  fetchPageBySlug linkSlug s = (Return (FArray a), s1) ->
  arr_at s1 a = first :: rest ->
  objs s1 !! l = Some o1 ->
  prop s1 (field o1 "title") "rendered" = Return rendered ->
  let t := fresh_loc (objs s1) in
  let objs1 := <[t := {[ "rendered" := rendered ]}]> (objs s1) in
  let m := fresh_loc objs1 in
  let merged := <["title" := VObj t]>
                  (<["image" := field o1 "image"]>
                     (<["categories" := field o1 "categories"]>
                        (own_props s1 first))) in
  redirect_post (VObj l) s
  = (Return (VArr a),
     mkState (<[m := merged]> objs1)
             (<[a := VObj m :: rest]> (arrs s1))
             (console s1)).
Proof.
  intros Hfetch Harr Hobj1 Hrendered t objs1 m merged.
  apply redirect_post_passed.
  rewrite redirect_attempt_start, Hslug, decide_True by done.
  unfold bind at 1. rewrite Hfetch.
  unfold bind at 1, read at 1. rewrite Harr.
  unfold bind at 1. unfold bind at 1, read at 1.
  unfold bind at 1, get_prop at 1, eval at 1. rewrite (prop_obj _ _ _ _ Hobj1).
  unfold bind at 1, get_prop at 1, eval at 1. rewrite (prop_obj _ _ _ _ Hobj1).
  unfold bind at 1, get_prop at 1, eval at 1. rewrite (prop_obj _ _ _ _ Hobj1).
  unfold bind at 1, get_prop at 1, eval at 1. rewrite Hrendered.
  unfold bind, alloc_obj, arr_set, ret. simpl.
  do 2 f_equal. f_equal.
  apply arr_at_cons in Harr.
  apply map_eq. intros b. rewrite lookup_alter.
  destruct (decide (a = b)) as [<-|Hne].
  - rewrite lookup_insert_eq, Harr. done.
  - by rewrite lookup_insert_ne.
Qed.
End OnePost.
End RedirectPost.

(** ** The whole list through [detectRedirects] *)

Section DetectRedirects.
Context {host : Host}.

Lemma elem_of_flat_obj s l vs : VObj l ∈ vs -> VObj l ∈ flat s vs.
Proof.
  intros Hin. unfold flat. apply list_elem_of_bind.
  exists (VObj l). split; [|done]. by apply list_elem_of_singleton.
Qed.

Lemma flat_objects s vs :
  Forall (fun v => exists l, v = VObj l) vs -> flat s vs = vs.
Proof.
  unfold flat. induction 1 as [|v vs [l ->] _ IH]; [done|].
  rewrite bind_cons, IH. done.
Qed.

Lemma detectRedirects_unfold posts sched s :
  detectRedirects posts sched s
  = match Promise_all_map redirect_post (arr_at s posts) sched s with
    | (Return newPosts, s1) =>
        (Return (VArr (fresh_loc (arrs s1))),
         mkState (objs s1)
                 (<[fresh_loc (arrs s1) := flat s1 newPosts]> (arrs s1))
                 (console s1))
    | (Throw e, s1) => (Throw e, s1)
    end.
Proof.
  unfold detectRedirects, bind at 1, read at 1.
  unfold bind at 1.
  destruct (Promise_all_map _ _ _ _) as [[newPosts|e] s1]; done.
Qed.

Lemma arr_at_alloc s out es :
  arr_at (mkState (objs s) (<[out := es]> (arrs s)) (console s)) out = es.
Proof. unfold arr_at. simpl. by rewrite lookup_insert_eq. Qed.


(** Every post that is resolved already, and every post whose [try]
    fails, is in the output as the object it was, with the properties it
    had. *)
Lemma detectRedirects_kept posts sched s :
  host_keeps_objects host ->
  sched ≡ₚ seq 0 (length (arr_at s posts)) ->
  exists out s',
    detectRedirects posts sched s = (Return (VArr out), s') /\
    forall i l o,
      arr_at s posts !! i = Some (VObj l) ->
      objs s !! l = Some o ->
      resolved o \/ fails o ->
      VObj l ∈ arr_at s' out /\ objs s' !! l = Some o.
Proof.
  intros frame Hperm. rewrite detectRedirects_unfold.
  destruct (Promise_all_map_slots
              (fun st => objs s ⊆ objs st)
              (fun x v => forall l o, x = VObj l -> objs s !! l = Some o ->
                                      resolved o \/ fails o -> v = x)
              redirect_post (arr_at s posts) sched s)
    as (slots & s1 & -> & Hsub & Hslots); [|done|done|].
  { intros x st _ Hst.
    destruct (redirect_post_returns x st) as (v & st' & Hrun).
    exists v, st'. split; [done|]. split.
    { etrans; [done|]. by eapply keeps_redirect_post. }
    intros l o -> Hl Hcase.
    pose proof (lookup_weaken _ _ _ _ Hl Hst) as Hl'.
    destruct Hcase as [(link & Hlink & Hslug) | (link & Hlink & Hfail)].
    - rewrite (redirect_post_resolved st l o link Hl' Hlink Hslug) in Hrun.
      congruence.
    - destruct Hfail as [Hparse | (linkSlug & Hslug & Hdiff & Hreject)].
      + rewrite (redirect_post_invalid_link st l o link Hl' Hlink Hparse) in Hrun.
        congruence.
      + destruct (Hreject st) as (e & st1 & Hfetch).
        rewrite (redirect_post_rejected st l o link Hl' Hlink linkSlug Hslug
                   Hdiff e st1 Hfetch) in Hrun.
        congruence. }
  eexists _, _. split; [done|].
  intros i l o Hi Hl Hcase. rewrite arr_at_alloc. simpl. split.
  - destruct (Forall2_lookup_l _ _ _ _ _ Hslots Hi) as (v & Hv & HR).
    rewrite (HR l o eq_refl Hl Hcase) in Hv.
    apply elem_of_flat_obj. by eapply list_elem_of_lookup_2.
  - by eapply lookup_weaken.
Qed.

(** A list of resolved posts comes back as it is: the same objects in
    the same order, in a new array, and nothing else in the store
    changes. *)
Lemma detectRedirects_all_resolved posts sched s :
  sched ≡ₚ seq 0 (length (arr_at s posts)) ->
  Forall (fun x => exists l o, x = VObj l /\ objs s !! l = Some o /\ resolved o)
         (arr_at s posts) ->
  exists out,
    detectRedirects posts sched s
    = (Return (VArr out),
       mkState (objs s) (<[out := arr_at s posts]> (arrs s)) (console s)) /\
    arrs s !! out = None.
Proof.
  intros Hperm Hall. rewrite detectRedirects_unfold.
  destruct (Promise_all_map_slots
              (fun st => st = s) (fun x v => v = x)
              redirect_post (arr_at s posts) sched s)
    as (slots & s1 & -> & -> & Hslots); [|done|done|].
  { intros x st Hx ->. exists x, s. split; [|done].
    rewrite Forall_forall in Hall.
    destruct (Hall x Hx) as (l & o & -> & Hl & link & Hlink & Hslug).
    by eapply redirect_post_resolved. }
  assert (slots = arr_at s posts) as ->.
  { symmetry. apply list_eq_Forall2. eapply Forall2_impl; [done|].
    by intros ?? ->. }
  exists (fresh_loc (arrs s)). split; [|apply fresh_loc_unused].
  rewrite flat_objects; [done|].
  eapply Forall_impl; [done|]. intros x (l & o & -> & _). eauto.
Qed.
End DetectRedirects.

(** ** Strings and sets *)

Lemma split_head sep text :
  exists pieces, split sep text = upto sep text :: pieces.
Proof.
  induction text as [|c rest [pieces IH]]; simpl; [by eexists|].
  destruct (Ascii.eqb c sep); [by eexists|].
  rewrite IH. by eexists.
Qed.

(** After a leading separator, piece 1 of the split is what stands
    between that separator and the next. *)
Lemma split_second sep rest :
  split sep (String sep rest) !! 1%nat = Some (upto sep rest).
Proof.
  simpl. rewrite Ascii.eqb_refl.
  destruct (split_head sep rest) as [pieces ->]. done.
Qed.

(** Without a separator there is no piece 1. *)
Lemma split_no_sep sep text :
  upto sep text = text -> split sep text = [text].
Proof.
  induction text as [|c rest IH]; simpl; [done|].
  destruct (Ascii.eqb c sep); [done|].
  intros [= H]. by rewrite (IH H).
Qed.

Lemma uniq_from (seen items : list value) :
  foldl (fun (seen : list value) x =>
           if decide (x ∈ seen) then seen else (seen ++ [x])%list) seen items
  = (seen ++ filter (fun y => y ∉ seen) (first_occurrences items))%list.
Proof.
  revert seen. induction items as [|x items IH]; intros seen; simpl.
  - by rewrite app_nil_r.
  - destruct (decide (x ∈ seen)) as [Hin|Hnin].
    + rewrite IH. f_equal.
      rewrite filter_cons_False by (intros H; by apply H).
      rewrite list_filter_filter. apply list_filter_iff.
      intros y. split; [|tauto]. intros Hy. split; [done|congruence].
    + rewrite IH, filter_cons_True by done.
      rewrite <- app_assoc. simpl. do 2 f_equal.
      rewrite list_filter_filter. apply list_filter_iff.
      intros y. rewrite not_elem_of_app, list_elem_of_singleton. tauto.
Qed.

Lemma filter_all {A} (P : A -> Prop) `{forall x, Decision (P x)} (l : list A) :
  (forall x, P x) -> filter P l = l.
Proof.
  intros HP. induction l as [|x l IH]; [done|].
  by rewrite filter_cons_True, IH.
Qed.

Lemma uniq_first_occurrences items : uniq items = first_occurrences items.
Proof.
  unfold uniq. rewrite uniq_from. simpl.
  apply filter_all. intros y. apply not_elem_of_nil.
Qed.

Lemma elem_of_first_occurrences x items :
  x ∈ first_occurrences items <-> x ∈ items.
Proof.
  induction items as [|y items IH]; simpl; [done|].
  rewrite !elem_of_cons, list_elem_of_filter, IH.
  destruct (decide (x = y)); tauto.
Qed.

Lemma NoDup_first_occurrences items : NoDup (first_occurrences items).
Proof.
  induction items as [|y items IH]; simpl; [constructor|].
  constructor.
  - rewrite list_elem_of_filter. tauto.
  - by apply NoDup_filter.
Qed.

(** ** Image links *)

Lemma read_step_throws s v st :
  (exists e, read_step s v st = Throw e) <-> nullish v.
Proof.
  unfold nullish. destruct st as [i|k], v; simpl;
    try destruct (String.eqb _ _); split;
    solve [ intros [e [=]] | intros [[=]|[=]] | eauto ].
Qed.

Lemma walk_app s v before after :
  walk s v (before ++ after)
  = match walk s v before with
    | Return v' => walk s v' after
    | Throw e => Throw e
    end.
Proof.
  revert v. induction before as [|st before IH]; intros v; simpl; [done|].
  destruct (read_step s v st); [apply IH|done].
Qed.

(** A chain of reads throws exactly when a value it reads from is
    [undefined] or [null]. *)
Lemma walk_throws s v path :
  (exists e, walk s v path = Throw e) <->
  (exists before st after v',
     path = (before ++ st :: after)%list /\
     walk s v before = Return v' /\ nullish v').
Proof.
  revert v. induction path as [|st path IH]; intros v; simpl.
  - split; [intros [e [=]]|].
    intros (before & st & after & v' & Heq & _). by destruct before.
  - destruct (read_step s v st) as [v1|e] eqn:E.
    + rewrite IH. split.
      * intros (before & st' & after & v' & -> & Hw & Hn).
        exists (st :: before), st', after, v'. simpl. by rewrite E.
      * intros (before & st' & after & v' & Heq & Hw & Hn).
        destruct before as [|st0 before]; simpl in *.
        { injection Hw as <-. injection Heq as <- <-.
          apply (read_step_throws s v st) in Hn as [e He]. congruence. }
        injection Heq as <- ->. rewrite E in Hw.
        by exists before, st', after, v'.
    + split; [|by eauto]. intros _.
      exists [], st, path, v. split; [done|]. split; [done|].
      apply (read_step_throws s v st). eauto.
Qed.

Section Images.
Context {host : Host}.

Lemma image_link_attempt_walk fm s :
  image_link_attempt fm s
  = match fetchData ("media/" ++ to_text s fm) s with
    | (Return info, s1) =>
        (walk s1 info (full_size_path ++ [Dot "source_url"]), s1)
    | (Throw e, s1) => (Throw e, s1)
    end.
Proof.
  unfold image_link_attempt, bind at 1, read at 1. unfold bind at 1. simpl.
  destruct (fetchData _ s) as [[info|e] s1]; [|done].
  unfold bind, get_index, get_prop, eval. simpl.
  destruct (index s1 info 0) as [entry|]; [|done].
  destruct (prop s1 entry _) as [md|]; [|done].
  destruct (prop s1 md _) as [sizes|]; [|done].
  destruct (prop s1 sizes _) as [full|]; [|done].
  by destruct (prop s1 full _).
Qed.

Lemma getImageLink_passed fm s v s1 :
  image_link_attempt fm s = (Return v, s1) ->
  getImageLink fm s = (Return v, s1).
Proof. intros H. unfold getImageLink, try_catch. by rewrite H. Qed.

(** [getImageLink] logs what its [try] throws and throws it again. *)
Lemma getImageLink_rethrown fm s e s1 :
  image_link_attempt fm s = (Throw e, s1) ->
  getImageLink fm s = (Throw e, logged "Error in getImageLink:" e s1).
Proof. intros H. unfold getImageLink, try_catch. by rewrite H. Qed.

Lemma getImageLink_throws fm s :
  (exists e s', getImageLink fm s = (Throw e, s')) <->
  (exists e s', image_link_attempt fm s = (Throw e, s')).
Proof.
  destruct (image_link_attempt fm s) as [[v|e] s1] eqn:E.
  - rewrite (getImageLink_passed _ _ _ _ E).
    split; intros (e & s' & [=]).
  - rewrite (getImageLink_rethrown _ _ _ _ E). split; eauto.
Qed.

Lemma missing_iff s info :
  missing s info <->
  exists e, walk s info (full_size_path ++ [Dot "source_url"]) = Throw e.
Proof.
  rewrite walk_throws. split.
  - intros (before & after & v & Heq & Hw & Hn).
    destruct after as [|st after].
    + exists before, (Dot "source_url"), [], v. by rewrite Heq, app_nil_r.
    + exists before, st, (after ++ [Dot "source_url"])%list, v.
      by rewrite Heq, <- app_assoc.
  - intros (before & st & after & v & Heq & Hw & Hn).
    induction after as [|st' after' _] using rev_ind.
    + apply app_inj_tail in Heq as [<- _].
      exists full_size_path, [], v. by rewrite app_nil_r.
    + exists before, (st :: after'), v. split; [|done].
      change (before ++ st :: after' ++ [st'])%list
        with (before ++ (st :: after') ++ [st'])%list in Heq.
      rewrite app_assoc in Heq. by apply app_inj_tail in Heq as [-> _].
Qed.

(** What the callback of [addImagesToPost] does with a throwing
    [getImageLink]: the item itself is returned. *)
Lemma add_image_caught post s fm e s1 :
  prop s post "featured_media" = Return fm ->
  getImageLink fm s = (Throw e, s1) ->
  add_image post s
  = (Return post, logged "Error in addImageToPost:" e s1).
Proof.
  intros Hfm Hlink. unfold add_image, try_catch, add_image_attempt.
  unfold bind at 1, get_prop at 1, eval at 1. rewrite Hfm.
  unfold bind at 1. by rewrite Hlink.
Qed.

(** With a link, the callback returns a new object: the properties of
    the item, and the link as its image. *)
Lemma add_image_enriched post s fm link s1 :
  prop s post "featured_media" = Return fm ->
  getImageLink fm s = (Return link, s1) ->
  add_image post s
  = (Return (VObj (fresh_loc (objs s1))),
     mkState (<[fresh_loc (objs s1) := <["image" := link]> (own_props s1 post)]>
                (objs s1))
             (arrs s1) (console s1)).
Proof.
  intros Hfm Hlink. unfold add_image, try_catch, add_image_attempt.
  unfold bind at 1, get_prop at 1, eval at 1. rewrite Hfm.
  unfold bind at 1. by rewrite Hlink.
Qed.

Lemma add_image_returns post s :
  exists v s', add_image post s = (Return v, s').
Proof.
  unfold add_image, try_catch.
  destruct (add_image_attempt post s) as [[v|e] s1]; by eauto.
Qed.

(** The check on the first item. *)
Lemma addImagesToPost_short_circuit data sched s l o rest :
  arrs s !! data = Some (VObj l :: rest) ->
  objs s !! l = Some o ->
  truthy (field o "image") = true \/ field o "featured_media" = VNum 0 ->
  addImagesToPost data sched s = (Return (VArr data), s).
Proof.
  intros Hdata Hl Hfirst. unfold addImagesToPost.
  unfold bind at 1, get_index at 1, eval at 1. unfold index, arr_at.
  rewrite Hdata. simpl.
  unfold bind at 1, get_prop at 1, eval at 1. rewrite (prop_obj _ _ _ _ Hl).
  destruct (truthy (field o "image")) eqn:Himg.
  - done.
  - destruct Hfirst as [?|Hfm]; [done|].
    unfold bind, get_prop, eval, ret. rewrite (prop_obj _ _ _ _ Hl), Hfm.
    done.
Qed.

Lemma addImagesToPost_empty data sched s :
  arrs s !! data = Some [] ->
  addImagesToPost data sched s
  = (Throw (TypeError "Cannot read properties of undefined (reading 'image')"), s).
Proof.
  intros Hdata. unfold addImagesToPost.
  unfold bind at 1, get_index at 1, eval at 1. unfold index, arr_at.
  rewrite Hdata. done.
Qed.
End Images.

(** ** A post without a title *)

(** Reading [rendered] from a title returns unless the title is
    [undefined] or [null]. *)
Lemma title_rendered s title :
  ~ nullish title -> exists rendered, prop s title "rendered" = Return rendered.
Proof.
  intros Hsome. destruct (prop s title "rendered") as [rendered|e] eqn:E.
  - by exists rendered.
  - exfalso. apply Hsome, (read_step_throws s title (Dot "rendered")).
    simpl. eauto.
Qed.

(** With results but without a title the read of [title.rendered] throws
    before anything is written. *)
Lemma redirect_post_untitled {host : Host} s l o link linkSlug a s1 first rest o1 :
  objs s !! l = Some o ->
  o !! "link" = Some (VStr link) ->
  slugExtractor link = Return linkSlug ->
  field o "slug" ≠ linkSlug ->
  fetchPageBySlug linkSlug s = (Return (FArray a), s1) ->
  arr_at s1 a = first :: rest ->
  objs s1 !! l = Some o1 ->
  nullish (field o1 "title") ->
  exists e,
    redirect_post (VObj l) s
    = (Return (VObj l), logged "Error in detectRedirects:" e s1).
Proof.
  intros Hobj Hlink Hslug Hdiff Hfetch Harr Hobj1 Htitle.
  apply (read_step_throws s1 _ (Dot "rendered")) in Htitle as [e He].
  simpl in He. exists e.
  apply redirect_post_caught.
  rewrite (redirect_attempt_start s l o link Hobj Hlink), Hslug,
    decide_True by done.
  unfold bind at 1. rewrite Hfetch.
  unfold bind at 1, read at 1. rewrite Harr.
  unfold bind at 1. unfold bind at 1, read at 1.
  unfold bind at 1, get_prop at 1, eval at 1. rewrite (prop_obj _ _ _ _ Hobj1).
  unfold bind at 1, get_prop at 1, eval at 1. rewrite (prop_obj _ _ _ _ Hobj1).
  unfold bind at 1, get_prop at 1, eval at 1. rewrite (prop_obj _ _ _ _ Hobj1).
  unfold bind at 1, get_prop at 1, eval at 1. by rewrite He.
Qed.

(** * The statements *)

Lemma example_host_keeps : host_keeps_objects example_host.
Proof. split; intros x; apply keeps_eval. Qed.

(** The scenario of the specification: the redirect target keeps its
    identity, the post its categories, image and title. *)
Example detectRedirects_scenario :
  fst scenario_run = Return (VArr 15) /\
  arr_at (snd scenario_run) 15 = [VObj 19] /\
  objs (snd scenario_run) !! 19%nat
  = Some (props [("slug", VStr "new"); ("categories", VArr 1);
                 ("image", VStr "i.jpg"); ("title", VObj 18)]) /\
  objs (snd scenario_run) !! 18%nat = Some (props [("rendered", VStr "T")]).
Proof. repeat split; vm_compute; reflexivity. Qed.

(** ** detectRedirects: a lookup without results *)

(** C1, as stated, fails: the post at location 5 has the slug [old-name],
    its link gives [gone], the lookup of [gone] resolves to an empty array,
    and the output of [detectRedirects] on the list of that one post is
    empty: the post is dropped, not kept.  In a list with a second,
    resolved post only that second post is in the output. *)
Lemma lookup_without_results_drops_post :
  arr_at example_store 5 = [VObj 5] /\
  objs example_store !! 5%nat = Some orphan_post /\
  field orphan_post "slug" = VStr "old-name" /\
  field orphan_post "link" = VStr "https://x/gone/" /\
  slugExtractor (host := example_host) "https://x/gone/" = Return (VStr "gone") /\
  fetchPageBySlug (Host := example_host) (VStr "gone") example_store
  = (Return (FArray 4), example_store) /\
  arr_at example_store 4 = [] /\
  fst orphan_run = Return (VArr 15) /\
  arr_at (snd orphan_run) 15 = [] /\
  (VObj 5 ∉ arr_at (snd orphan_run) 15) /\
  arr_at example_store 14 = [VObj 5; VObj 6] /\
  fst mixed_run = Return (VArr 15) /\
  arr_at (snd mixed_run) 15 = [VObj 6].
Proof.
  assert (Hout : arr_at (snd orphan_run) 15 = []) by (vm_compute; reflexivity).
  repeat split; try (vm_compute; reflexivity).
  rewrite Hout. apply not_elem_of_nil.
Qed.

(** C1, amended: for a post whose stored slug differs from the slug of its
    link, when the lookup resolves to an empty array the callback returns
    that empty array, flattening it leaves nothing, and the output for the
    list of that one post is the empty list: the post is dropped. *)
Theorem redirect_post_without_results {host : Host} s l o link linkSlug a s1 :
  objs s !! l = Some o ->
  o !! "link" = Some (VStr link) ->
  slugExtractor link = Return linkSlug ->
  field o "slug" ≠ linkSlug ->
  fetchPageBySlug linkSlug s = (Return (FArray a), s1) ->
  arr_at s1 a = [] ->
  redirect_post (VObj l) s = (Return (VArr a), s1) /\
  flat s1 [VArr a] = [] /\
  forall posts,
    arr_at s posts = [VObj l] ->
    exists out,
      detectRedirects posts [0%nat] s
      = (Return (VArr out),
         mkState (objs s1) (<[out := []]> (arrs s1)) (console s1)) /\
      arrs s1 !! out = None.
Proof.
  intros Hobj Hlink Hslug Hdiff Hfetch Hempty.
  pose proof (redirect_post_no_result s l o link Hobj Hlink linkSlug Hslug
                Hdiff a s1 Hfetch Hempty) as Hrun.
  assert (Hflat : flat s1 [VArr a] = []).
  { unfold flat. rewrite bind_singleton. exact Hempty. }
  split; [exact Hrun|]. split; [exact Hflat|].
  intros posts Hposts. exists (fresh_loc (arrs s1)).
  split; [|apply fresh_loc_unused].
  rewrite detectRedirects_unfold, Hposts, Promise_all_map_single, Hrun.
  by rewrite Hflat.
Qed.

Lemma redirect_post_without_results_witness :
  redirect_post (host := example_host) (VObj 5) example_store
  = (Return (VArr 4), example_store) /\
  flat example_store [VArr 4] = [].
Proof.
  destruct (redirect_post_without_results (host := example_host)
              example_store 5 orphan_post "https://x/gone/" (VStr "gone")
              4 example_store)
    as (Hrun & Hflat & _).
  - reflexivity.
  - reflexivity.
  - reflexivity.
  - vm_compute. discriminate.
  - reflexivity.
  - reflexivity.
  - split; [exact Hrun | exact Hflat].
Defined.

(** ** detectRedirects: the merge *)

(** C2, as stated, fails for the fields of the title: the page the lookup
    of [new] resolves to has a title with the fields [rendered] and [raw];
    in the merged result the title has lost [raw], a field other than
    [rendered]. *)
Lemma merge_replaces_whole_title :
  fst moved_run = Return (VArr 3) /\
  walk example_store (VArr 3) [At 0; Dot "title"; Dot "raw"]
  = Return (VStr "New") /\
  walk (snd moved_run) (VArr 3) [At 0; Dot "title"; Dot "raw"]
  = Return VUndef /\
  walk (snd moved_run) (VArr 3) [At 0; Dot "title"; Dot "rendered"]
  = Return (VStr "T").
Proof. repeat split; vm_compute; reflexivity. Qed.

(** C2, amended: when the lookup resolves to an array with a first
    element and the post has a title (its [title] is neither [undefined]
    nor [null]), that element is replaced in the array by a new object
    which has the post's [categories] and [image], as [title] a new object
    with the one field [rendered], the post's [title.rendered], and every
    other property of the first fetched result as it was; the rest of the
    array, the other arrays and all objects there were are unchanged.
    When the post's [title] is [undefined] or [null], reading
    [title.rendered] throws before anything is written: nothing is
    merged, the error is logged, the post itself is returned, and the
    fetched array and all objects are as the lookup left them. *)
Theorem redirect_post_merges {host : Host}
    s l o link linkSlug a s1 first rest o1 :
  objs s !! l = Some o ->
  o !! "link" = Some (VStr link) ->
  slugExtractor link = Return linkSlug ->
  field o "slug" ≠ linkSlug ->
  fetchPageBySlug linkSlug s = (Return (FArray a), s1) ->
  arr_at s1 a = first :: rest ->
  objs s1 !! l = Some o1 ->
  (~ nullish (field o1 "title") ->
   exists rendered s2 m t merged,
     prop s1 (field o1 "title") "rendered" = Return rendered /\
     redirect_post (VObj l) s = (Return (VArr a), s2) /\
     arr_at s2 a = VObj m :: rest /\
     objs s1 !! m = None /\ objs s1 !! t = None /\ m ≠ t /\
     objs s2 !! m = Some merged /\
     merged !! "categories" = Some (field o1 "categories") /\
     merged !! "image" = Some (field o1 "image") /\
     merged !! "title" = Some (VObj t) /\
     objs s2 !! t = Some {[ "rendered" := rendered ]} /\
     (forall k, k ≠ "categories" -> k ≠ "image" -> k ≠ "title" ->
                merged !! k = own_props s1 first !! k) /\
     objs s1 ⊆ objs s2 /\
     (forall b, b ≠ a -> arrs s2 !! b = arrs s1 !! b) /\
     console s2 = console s1) /\
  (nullish (field o1 "title") ->
   exists e,
     redirect_post (VObj l) s
     = (Return (VObj l), logged "Error in detectRedirects:" e s1) /\
     arr_at (logged "Error in detectRedirects:" e s1) a = first :: rest /\
     objs (logged "Error in detectRedirects:" e s1) = objs s1 /\
     arrs (logged "Error in detectRedirects:" e s1) = arrs s1).
Proof.
  intros Hobj Hlink Hslug Hdiff Hfetch Harr Hobj1. split.
  - intros Htitle.
    destruct (title_rendered s1 _ Htitle) as [rendered Hrendered].
    pose proof (redirect_post_merge s l o link Hobj Hlink linkSlug Hslug Hdiff
                  a s1 first rest o1 rendered Hfetch Harr Hobj1 Hrendered)
      as Hrun.
    simpl in Hrun.
    set (t := fresh_loc (objs s1)) in *.
    set (objs1 := <[t := {[ "rendered" := rendered ]}]> (objs s1)) in *.
    set (m := fresh_loc objs1) in *.
    assert (Ht : objs s1 !! t = None) by apply fresh_loc_unused.
    assert (Hm1 : objs1 !! m = None) by apply fresh_loc_unused.
    assert (Hmt : m ≠ t).
    { intros Heq. rewrite Heq in Hm1. unfold objs1 in Hm1.
      by rewrite lookup_insert_eq in Hm1. }
    assert (Hm : objs s1 !! m = None).
    { unfold objs1 in Hm1. by rewrite lookup_insert_ne in Hm1. }
    eexists rendered, _, m, t, _. split; [exact Hrendered|].
    split; [exact Hrun|]. simpl.
    split; [unfold arr_at; simpl; by rewrite lookup_insert_eq|].
    split; [done|]. split; [done|]. split; [done|].
    split; [by rewrite lookup_insert_eq|].
    split; [by rewrite lookup_insert_ne, lookup_insert_ne, lookup_insert_eq|].
    split; [by rewrite lookup_insert_ne, lookup_insert_eq|].
    split; [by rewrite lookup_insert_eq|].
    split; [rewrite lookup_insert_ne by done; unfold objs1;
            by rewrite lookup_insert_eq|].
    split; [intros k H1 H2 H3; by rewrite !lookup_insert_ne|].
    split.
    { etrans; [apply (insert_subseteq _ t); exact Ht|].
      apply insert_subseteq. exact Hm1. }
    split; [intros b Hb; by rewrite lookup_insert_ne|done].
  - intros Htitle.
    destruct (redirect_post_untitled s l o link linkSlug a s1 first rest o1
                Hobj Hlink Hslug Hdiff Hfetch Harr Hobj1 Htitle) as [e Hrun].
    exists e. split; [exact Hrun|]. split; [exact Harr|]. split; reflexivity.
Qed.

Lemma redirect_post_merges_witness :
  exists s2 m t merged,
    redirect_post (host := example_host) (VObj 1) example_store
    = (Return (VArr 3), s2) /\
    arr_at s2 3 = [VObj m] /\
    objs s2 !! m = Some merged /\
    merged !! "categories" = Some (VArr 1) /\
    merged !! "image" = Some (VStr "i.jpg") /\
    merged !! "title" = Some (VObj t) /\
    objs s2 !! t = Some {[ "rendered" := VStr "T" ]} /\
    merged !! "slug" = Some (VStr "new").
Proof.
  destruct (redirect_post_merges (host := example_host)
              example_store 1 moved_post "https://x/new/" (VStr "new")
              3 example_store (VObj 3) [] moved_post)
    as [Hmerge _].
  - reflexivity.
  - reflexivity.
  - reflexivity.
  - vm_compute. discriminate.
  - reflexivity.
  - reflexivity.
  - reflexivity.
  - destruct Hmerge
      as (rendered & s2 & m & t & merged & Hrendered & Hrun & Harr & _ & _ & _
          & Hm & Hc & Hi & Ht & Hobj & Hother & _).
    { intros [H | H]; discriminate H. }
    injection Hrendered as <-.
    exists s2, m, t, merged.
    split; [exact Hrun|]. split; [exact Harr|]. split; [exact Hm|].
    split; [exact Hc|]. split; [exact Hi|]. split; [exact Ht|].
    split; [exact Hobj|].
    rewrite (Hother "slug") by discriminate. reflexivity.
Defined.

(** ** detectRedirects: posts that are resolved already *)

(** C3: in whatever order the callbacks resume, every post of the input
    whose stored slug is the slug of its link is in the output as the very
    object it was (the same location, the same properties); and a list
    of such posts only comes back with the same objects in the same order,
    the store otherwise untouched, so that a second run on the output
    returns these objects once more. *)
Theorem detectRedirects_resolved_identity {host : Host} posts sched s :
  host_keeps_objects host ->
  sched ≡ₚ seq 0 (length (arr_at s posts)) ->
  exists out s',
    detectRedirects posts sched s = (Return (VArr out), s') /\
    (forall i l o,
       arr_at s posts !! i = Some (VObj l) ->
       objs s !! l = Some o ->
       resolved o ->
       VObj l ∈ arr_at s' out /\ objs s' !! l = Some o) /\
    (Forall (fun x => exists l o, x = VObj l /\ objs s !! l = Some o /\ resolved o)
            (arr_at s posts) ->
     arr_at s' out = arr_at s posts /\
     objs s' = objs s /\ console s' = console s /\
     arrs s' = <[out := arr_at s posts]> (arrs s) /\ arrs s !! out = None /\
     forall sched2,
       sched2 ≡ₚ seq 0 (length (arr_at s posts)) ->
       exists out2 s'',
         detectRedirects out sched2 s' = (Return (VArr out2), s'') /\
         arr_at s'' out2 = arr_at s posts /\ objs s'' = objs s).
Proof.
  intros frame Hperm.
  destruct (detectRedirects_kept posts sched s frame Hperm)
    as (out & s' & Hrun & Hkept).
  exists out, s'. split; [exact Hrun|]. split.
  { intros i l o Hi Hl Hres. apply (Hkept i l o Hi Hl). by left. }
  intros Hall.
  destruct (detectRedirects_all_resolved posts sched s Hperm Hall)
    as (out' & Hrun' & Hfresh).
  rewrite Hrun' in Hrun. injection Hrun as -> <-.
  pose proof (arr_at_alloc s out (arr_at s posts)) as Hout.
  split; [exact Hout|]. simpl.
  split; [done|]. split; [done|]. split; [done|]. split; [done|].
  intros sched2 Hperm2.
  destruct (detectRedirects_all_resolved out sched2
              (mkState (objs s) (<[out := arr_at s posts]> (arrs s)) (console s)))
    as (out2 & Hrun2 & _).
  { by rewrite Hout. }
  { by rewrite Hout. }
  eexists out2, _. split; [exact Hrun2|].
  rewrite arr_at_alloc. by rewrite Hout.
Qed.

Lemma detectRedirects_resolved_identity_witness :
  (exists out s',
     detectRedirects (host := example_host) 6 [2; 0; 3; 1]%nat example_store
     = (Return (VArr out), s') /\
     VObj 6 ∈ arr_at s' out /\ objs s' !! 6%nat = Some settled_post) /\
  (exists out s',
     detectRedirects (host := example_host) 12 [1; 0]%nat example_store
     = (Return (VArr out), s') /\
     arr_at s' out = [VObj 6; VObj 6] /\ objs s' = objs example_store).
Proof.
  split.
  - destruct (detectRedirects_resolved_identity (host := example_host)
                6 [2; 0; 3; 1]%nat example_store example_host_keeps)
      as (out & s' & Hrun & Hkept & _).
    { vm_compute. apply Permutation_sym.
      apply perm_trans with [0; 2; 3; 1]%nat; [|apply perm_swap].
      apply perm_skip.
      apply perm_trans with [2; 1; 3]%nat; [apply perm_swap|].
      apply perm_skip, perm_swap. }
    exists out, s'. split; [exact Hrun|].
    apply (Hkept 0%nat 6%nat settled_post); [reflexivity|reflexivity|].
    exists "https://x/same/". split; reflexivity.
  - destruct (detectRedirects_resolved_identity (host := example_host)
                12 [1; 0]%nat example_store example_host_keeps)
      as (out & s' & Hrun & _ & Hall).
    { vm_compute. apply perm_swap. }
    exists out, s'. split; [exact Hrun|].
    destruct Hall as (Hsame & Hobjs & _).
    + change (arr_at example_store 12) with [VObj 6; VObj 6].
      repeat constructor;
        (exists 6%nat, settled_post; split; [reflexivity|];
         split; [reflexivity|];
         exists "https://x/same/"; split; reflexivity).
    + split; [exact Hsame | exact Hobjs].
Defined.

(** ** detectRedirects: exceptions *)



(** ** No item is written to *)

(** C6: with collaborators that leave the objects of the store alone,
    every object there is before a call of [detectRedirects] or of
    [addImagesToPost], the items of the input among them, is there after
    the call with exactly the properties it had.  What the callbacks
    merge, they build in a new object: the merge of [detectRedirects] puts
    a new object into the fetched array and leaves the post as it is, and
    the callback of [addImagesToPost] returns a new object with the
    properties of the item and the image. *)
Theorem helpers_keep_input_items {host : Host} list sched s :
  host_keeps_objects host ->
  (forall r s', detectRedirects list sched s = (r, s') ->
     (forall l o, objs s !! l = Some o -> objs s' !! l = Some o) /\
     (forall i l o, arr_at s list !! i = Some (VObj l) ->
                    objs s !! l = Some o -> objs s' !! l = Some o)) /\
  (forall r s', addImagesToPost list sched s = (r, s') ->
     (forall l o, objs s !! l = Some o -> objs s' !! l = Some o) /\
     (forall i l o, arr_at s list !! i = Some (VObj l) ->
                    objs s !! l = Some o -> objs s' !! l = Some o)) /\
  (forall l o link linkSlug a s1 first rest o1 rendered,
     objs s !! l = Some o ->
     o !! "link" = Some (VStr link) ->
     slugExtractor link = Return linkSlug ->
     field o "slug" ≠ linkSlug ->
     fetchPageBySlug linkSlug s = (Return (FArray a), s1) ->
     arr_at s1 a = first :: rest ->
     objs s1 !! l = Some o1 ->
     prop s1 (field o1 "title") "rendered" = Return rendered ->
     exists m s2,
       redirect_post (VObj l) s = (Return (VArr a), s2) /\
       arr_at s2 a = VObj m :: rest /\
       objs s1 !! m = None /\ objs s2 !! l = Some o1) /\
  (forall post fm link s1,
     prop s post "featured_media" = Return fm ->
     getImageLink fm s = (Return link, s1) ->
     exists m s2,
       add_image post s = (Return (VObj m), s2) /\
       objs s1 !! m = None /\
       objs s2 = <[m := <["image" := link]> (own_props s1 post)]> (objs s1)).
Proof.
  intros frame. split; [|split; [|split]].
  - intros r s' Hrun.
    pose proof (keeps_detectRedirects frame list sched s r s' Hrun) as Hsub.
    split; intros; by eapply lookup_weaken.
  - intros r s' Hrun.
    pose proof (keeps_addImagesToPost frame list sched s r s' Hrun) as Hsub.
    split; intros; by eapply lookup_weaken.
  - intros l o link linkSlug a s1 first rest o1 rendered
           Hobj Hlink Hslug Hdiff Hfetch Harr Hobj1 Hrendered.
    pose proof (redirect_post_merge s l o link Hobj Hlink linkSlug Hslug Hdiff
                  a s1 first rest o1 rendered Hfetch Harr Hobj1 Hrendered)
      as Hrun.
    simpl in Hrun.
    set (t := fresh_loc (objs s1)) in *.
    set (objs1 := <[t := {[ "rendered" := rendered ]}]> (objs s1)) in *.
    set (m := fresh_loc objs1) in *.
    assert (Ht : objs s1 !! t = None) by apply fresh_loc_unused.
    assert (Hm1 : objs1 !! m = None) by apply fresh_loc_unused.
    assert (Hsub : objs s1 ⊆ objs1) by (by apply insert_subseteq).
    eexists m, _. split; [exact Hrun|]. simpl.
    split; [unfold arr_at; simpl; by rewrite lookup_insert_eq|].
    split; [by eapply lookup_weaken_None|].
    eapply lookup_weaken; [|by apply insert_subseteq].
    by eapply lookup_weaken.
  - intros post fm link s1 Hfm Hlink.
    eexists _, _. split; [exact (add_image_enriched post s fm link s1 Hfm Hlink)|].
    split; [apply fresh_loc_unused|done].
Qed.

Lemma helpers_keep_input_items_witness :
  (forall r s',
     detectRedirects (host := example_host) 0 [0%nat] example_store = (r, s') ->
     objs s' !! 1%nat = Some moved_post) /\
  (forall r s',
     addImagesToPost (host := example_host) 13 [1; 0]%nat example_store = (r, s') ->
     objs s' !! 1%nat = Some moved_post).
Proof.
  split; intros r s' Hrun.
  - destruct (helpers_keep_input_items (host := example_host)
                0 [0%nat] example_store example_host_keeps)
      as (Hd & _).
    destruct (Hd r s' Hrun) as [_ Hitem].
    apply (Hitem 0%nat 1%nat moved_post); reflexivity.
  - destruct (helpers_keep_input_items (host := example_host)
                13 [1; 0]%nat example_store example_host_keeps)
      as (_ & Ha & _).
    destruct (Ha r s' Hrun) as [_ Hitem].
    apply (Hitem 1%nat 1%nat moved_post); reflexivity.
Defined.

(** ** addImagesToPost: the check on the first item *)

(** C5: when the first item of a non-empty list has a truthy image (a
    non-empty string is one) or the featured media 0, [addImagesToPost]
    returns the input array itself and leaves the store as it is, whatever
    the items after the first are: they are not looked at. *)
Theorem addImagesToPost_first_item_only {host : Host} data sched s l o rest :
  arrs s !! data = Some (VObj l :: rest) ->
  objs s !! l = Some o ->
  (exists img, o !! "image" = Some (VStr img) /\ img ≠ "") \/
  truthy (field o "image") = true \/
  o !! "featured_media" = Some (VNum 0) ->
  addImagesToPost data sched s = (Return (VArr data), s).
Proof.
  intros Hdata Hl Hfirst.
  apply (addImagesToPost_short_circuit data sched s l o rest Hdata Hl).
  destruct Hfirst as [(img & Himg & Hne) | [Htruthy | Hfm]].
  - left. unfold field. rewrite Himg. simpl.
    destruct (String.eqb_spec img ""); [contradiction|reflexivity].
  - by left.
  - right. unfold field. by rewrite Hfm.
Qed.

Lemma addImagesToPost_first_item_only_witness :
  arr_at example_store 7 = [VObj 6; VObj 9] /\
  field settled_post "featured_media" = VNum 0 /\
  field bare_item "featured_media" = VNum 7 /\
  field bare_item "image" = VUndef /\
  addImagesToPost (host := example_host) 7 [1; 0]%nat example_store
  = (Return (VArr 7), example_store).
Proof.
  split; [reflexivity|]. split; [reflexivity|]. split; [reflexivity|].
  split; [reflexivity|].
  apply (addImagesToPost_first_item_only (host := example_host)
           7 [1; 0]%nat example_store 6 settled_post [VObj 9]).
  - reflexivity.
  - reflexivity.
  - right. right. reflexivity.
Defined.

(** C10: on an empty array [addImagesToPost] does not return: reading
    [image] from the missing first item throws a type error. *)
Theorem addImagesToPost_empty_list_throws {host : Host} data sched s :
  arrs s !! data = Some [] ->
  addImagesToPost data sched s
  = (Throw (TypeError "Cannot read properties of undefined (reading 'image')"), s) /\
  forall out s', addImagesToPost data sched s ≠ (Return out, s').
Proof.
  intros Hdata. rewrite (addImagesToPost_empty data sched s Hdata).
  split; [reflexivity|]. intros out s' [=].
Qed.

Lemma addImagesToPost_empty_list_throws_witness :
  addImagesToPost (host := example_host) 8 [] example_store
  = (Throw (TypeError "Cannot read properties of undefined (reading 'image')"),
     example_store).
Proof.
  apply (addImagesToPost_empty_list_throws (host := example_host)
           8 [] example_store).
  reflexivity.
Defined.

(** ** slugExtractor *)

(** C7, as stated, fails for a valid absolute URL whose path has no
    leading slash: [mailto:editor@example.com] parses, its path is the
    address, and [slugExtractor] returns [undefined] for it: no path
    segment and no error. *)
Lemma slugExtractor_without_leading_slash :
  parse_url (Host := example_host) "mailto:editor@example.com"
  = Some (mkURL "editor@example.com") /\
  slugExtractor (host := example_host) "mailto:editor@example.com"
  = Return VUndef.
Proof. split; vm_compute; reflexivity. Qed.

(** C7, amended: [slugExtractor] throws exactly when its input does not
    parse as a URL; when the input parses and the path starts with a
    slash, it returns what stands between that slash and the next one (or
    the end of the path), and when the path has no slash at all it
    returns [undefined]; so it returns [my-post] for
    [https://example.com/my-post/], whose path is [/my-post/], and throws
    for [not a url], which does not parse. *)
Theorem slugExtractor_first_segment {host : Host} (link : string) :
  ((exists e, slugExtractor link = Throw e) <-> parse_url link = None) /\
  (forall url rest,
     parse_url link = Some url ->
     pathname url = String "/" rest ->
     slugExtractor link = Return (VStr (upto "/" rest))) /\
  (forall url,
     parse_url link = Some url ->
     upto "/" (pathname url) = pathname url ->
     slugExtractor link = Return VUndef) /\
  (parse_url "https://example.com/my-post/" = Some (mkURL "/my-post/") ->
   slugExtractor "https://example.com/my-post/" = Return (VStr "my-post")) /\
  (parse_url "not a url" = None ->
   exists e, slugExtractor "not a url" = Throw e).
Proof.
  split; [|split; [|split; [|split]]].
  - unfold slugExtractor. destruct (parse_url link) as [url|]; split.
    + intros [e [=]].
    + intros [=].
    + done.
    + eauto.
  - intros url rest Hparse Hpath. unfold slugExtractor.
    by rewrite Hparse, Hpath, split_second.
  - intros url Hparse Hpath. unfold slugExtractor.
    by rewrite Hparse, (split_no_sep _ _ Hpath).
  - intros Hparse. unfold slugExtractor. by rewrite Hparse.
  - intros Hparse. unfold slugExtractor. rewrite Hparse. eauto.
Qed.

Lemma slugExtractor_first_segment_witness :
  slugExtractor (host := example_host) "https://example.com/my-post/"
  = Return (VStr "my-post") /\
  (exists e, slugExtractor (host := example_host) "not a url" = Throw e) /\
  slugExtractor (host := example_host) "https://x/new/" = Return (VStr "new").
Proof.
  destruct (slugExtractor_first_segment (host := example_host) "https://x/new/")
    as (_ & Hseg & _ & Hpost & Hbad).
  split; [apply Hpost; reflexivity|].
  split; [apply Hbad; reflexivity|].
  apply (Hseg (mkURL "/new/") "new/"); reflexivity.
Defined.

(** ** endpointParamsBuilder *)

(** C8: when [fields] is a non-empty array, the key [_fields] holds its
    elements without later duplicates, in the order of their first
    occurrence, joined with commas, and otherwise there is no such key; the
    key [per_page] holds [quantity] exactly when that is a number; there is
    no other key, and the function is total: no input makes it fail.  The
    elements the set keeps are those of the array, each once.  For
    [["a","b","a"]] and 5 the result is [{_fields: "a,b", per_page: 5}],
    for [[]] and [undefined] it is the empty object. *)
Theorem endpointParamsBuilder_keys {host : Host} s fields quantity :
  (forall es, uniq es = first_occurrences es /\ NoDup (uniq es) /\
              forall x, x ∈ uniq es <-> x ∈ es) /\
  (forall a, fields = VArr a -> arr_at s a ≠ [] ->
     endpointParamsBuilder s fields quantity !! "_fields"
     = Some (VStr (join "," (join_text s <$> first_occurrences (arr_at s a))))) /\
  ((forall a, fields = VArr a -> arr_at s a = []) ->
     endpointParamsBuilder s fields quantity !! "_fields" = None) /\
  (forall v, endpointParamsBuilder s fields quantity !! "per_page" = Some v <->
             v = quantity /\ exists n, quantity = VNum n) /\
  (forall k, k ≠ "_fields" -> k ≠ "per_page" ->
     endpointParamsBuilder s fields quantity !! k = None) /\
  (forall a, arr_at s a = [VStr "a"; VStr "b"; VStr "a"] ->
     endpointParamsBuilder s (VArr a) (VNum 5)
     = <["_fields" := VStr "a,b"]> (<["per_page" := VNum 5]> ∅)) /\
  (forall a, arr_at s a = [] ->
     endpointParamsBuilder s (VArr a) VUndef = ∅).
Proof.
  assert (Hper : forall (p : gmap string value),
            p !! "per_page" = None ->
            forall v,
              match quantity with
              | VNum _ => <["per_page" := quantity]> p
              | _ => p
              end !! "per_page" = Some v <->
              v = quantity /\ exists n, quantity = VNum n).
  { intros p Hp v. destruct quantity;
      try (rewrite Hp; split; [intros [=] | intros [_ [n [=]]]]).
    rewrite lookup_insert_eq. split.
    - intros [= <-]. eauto.
    - by intros [-> _]. }
  assert (Hkeep : forall (p : gmap string value) k,
            k ≠ "per_page" ->
            match quantity with
            | VNum _ => <["per_page" := quantity]> p
            | _ => p
            end !! k = p !! k).
  { intros p k Hk. destruct quantity; try done. by rewrite lookup_insert_ne. }
  split; [|split; [|split; [|split; [|split; [|split]]]]].
  - intros es. rewrite uniq_first_occurrences.
    split; [done|]. split; [apply NoDup_first_occurrences|].
    intros x. apply elem_of_first_occurrences.
  - intros a -> Hne. unfold endpointParamsBuilder.
    rewrite Hkeep by done.
    destruct (arr_at s a) as [|e es] eqn:E; [done|].
    by rewrite lookup_insert_eq, uniq_first_occurrences.
  - intros Hnone. unfold endpointParamsBuilder. rewrite Hkeep by done.
    destruct fields; try done.
    by rewrite (Hnone _ eq_refl).
  - intros v. unfold endpointParamsBuilder. apply Hper.
    destruct fields; try done.
    destruct (arr_at s l); [done|]. by rewrite lookup_insert_ne.
  - intros k Hf Hp. unfold endpointParamsBuilder. rewrite Hkeep by done.
    destruct fields; try done.
    destruct (arr_at s l); [done|]. by rewrite lookup_insert_ne.
  - intros a Ha. unfold endpointParamsBuilder. rewrite Ha.
    apply map_eq. intros k.
    destruct (decide (k = "per_page")) as [->|Hp]; [reflexivity|].
    rewrite !(lookup_insert_ne _ "per_page") by done.
    destruct (decide (k = "_fields")) as [->|Hf].
    + by rewrite !lookup_insert_eq.
    + by rewrite !lookup_insert_ne.
  - intros a Ha. unfold endpointParamsBuilder. by rewrite Ha.
Qed.

Lemma endpointParamsBuilder_keys_witness :
  endpointParamsBuilder (host := example_host) example_store (VArr 11) (VNum 5)
  = <["_fields" := VStr "a,b"]> (<["per_page" := VNum 5]> ∅) /\
  endpointParamsBuilder (host := example_host) example_store (VArr 4) VUndef = ∅ /\
  endpointParamsBuilder (host := example_host) example_store (VArr 11) (VStr "5")
    !! "_fields" = Some (VStr "a,b").
Proof.
  split; [|split].
  - destruct (endpointParamsBuilder_keys (host := example_host)
                example_store (VArr 11) (VNum 5)) as (_ & _ & _ & _ & _ & Hex & _).
    apply Hex. reflexivity.
  - destruct (endpointParamsBuilder_keys (host := example_host)
                example_store (VArr 4) VUndef) as (_ & _ & _ & _ & _ & _ & Hex).
    apply Hex. reflexivity.
  - destruct (endpointParamsBuilder_keys (host := example_host)
                example_store (VArr 11) (VStr "5")) as (_ & Hfields & _).
    rewrite (Hfields 11%nat eq_refl); [reflexivity|].
    discriminate.
Defined.

(** ** getImageLink *)

(** C9, as stated, fails when only the last field is absent: the metadata
    of media 7 is fetched and has a full size, which has no [source_url];
    [getImageLink] does not raise but returns [undefined], and logs
    nothing. *)
Lemma getImageLink_without_source_url :
  fetchData (Host := example_host) "media/7" example_store
  = (Return (VArr 9), example_store) /\
  walk example_store (VArr 9) full_size_path = Return (VObj 13) /\
  objs example_store !! 13%nat = Some ∅ /\
  fst hollow_media_run = Return VUndef /\
  console (snd hollow_media_run) = [].
Proof. repeat split; vm_compute; reflexivity. Qed.

(** C9, amended: [getImageLink] raises exactly when the fetch is rejected
    or when the fetched metadata, its first entry, or one of
    [media_details], [sizes] and [full] on the way is [undefined] or
    [null], and it raises the error it caught, after logging it; when the
    full-size entry is there it returns what that entry has as
    [source_url], which is [undefined] when the entry has none; and the
    callback of [addImagesToPost] catches a raise of [getImageLink] and
    returns the item it was given, so that this callback never raises. *)
Theorem getImageLink_raises_iff {host : Host} fm s :
  ((exists e s', getImageLink fm s = (Throw e, s')) <->
   (exists e s1, fetchData ("media/" ++ to_text s fm) s = (Throw e, s1)) \/
   (exists info s1, fetchData ("media/" ++ to_text s fm) s = (Return info, s1) /\
                    missing s1 info)) /\
  (forall e s1,
     image_link_attempt fm s = (Throw e, s1) ->
     getImageLink fm s = (Throw e, logged "Error in getImageLink:" e s1)) /\
  (forall info s1 full,
     fetchData ("media/" ++ to_text s fm) s = (Return info, s1) ->
     walk s1 info full_size_path = Return full ->
     ~ nullish full ->
     exists link, prop s1 full "source_url" = Return link /\
                  getImageLink fm s = (Return link, s1)) /\
  (forall post st fm' e st1,
     prop st post "featured_media" = Return fm' ->
     getImageLink fm' st = (Throw e, st1) ->
     add_image post st
     = (Return post, logged "Error in addImageToPost:" e st1)) /\
  (forall post st, exists v st', add_image post st = (Return v, st')).
Proof.
  split; [|split; [|split; [|split]]].
  - rewrite getImageLink_throws, image_link_attempt_walk.
    destruct (fetchData _ s) as [[info|e] s1] eqn:E.
    + split.
      * intros (e & s' & Hthrow). right. exists info, s1. split; [done|].
        apply missing_iff. injection Hthrow as Hthrow _. eauto.
      * intros [(e & s' & [=]) | (info' & s1' & [= <- <-] & Hmiss)].
        apply missing_iff in Hmiss as [e He]. rewrite He. eauto.
    + split; [|by eauto]. intros _. left. eauto.
  - apply getImageLink_rethrown.
  - intros info s1 full Hfetch Hwalk Hfull.
    destruct (prop s1 full "source_url") as [link|e] eqn:Hprop.
    + exists link. split; [done|]. apply getImageLink_passed.
      rewrite image_link_attempt_walk, Hfetch, walk_app, Hwalk. simpl.
      by rewrite Hprop.
    + exfalso. apply Hfull. apply (read_step_throws s1 full (Dot "source_url")).
      simpl. eauto.
  - intros post st fm' e st1. apply add_image_caught.
  - apply add_image_returns.
Qed.

Lemma getImageLink_raises_iff_witness :
  getImageLink (host := example_host) (VNum 8) example_store
  = (Return (VStr "https://x/full.jpg"), example_store) /\
  (exists e s', getImageLink (host := example_host) (VNum 9) example_store
                = (Throw e, s')).
Proof.
  destruct (getImageLink_raises_iff (host := example_host) (VNum 8) example_store)
    as (_ & _ & Hfull & _).
  destruct (getImageLink_raises_iff (host := example_host) (VNum 9) example_store)
    as (Hiff & _).
  split.
  - destruct (Hfull (VArr 10) example_store (VObj 17)) as (link & Hlink & Hrun).
    + reflexivity.
    + reflexivity.
    + intros [H | H]; discriminate H.
    + injection Hlink as <-. exact Hrun.
  - apply Hiff. left. exists (Rejected (VStr "404")), example_store. reflexivity.
Defined.

(** * Further properties *)

(** ** queryBuilder *)

Section QueryFacts.
Context {host : Host}.

Lemma queryBuilder_from s (q : list (string * string)) entries :
  foldl (fun q '(key, value) => append q key (to_text s value)) q entries
  = (q ++ ((fun '(key, value) => (key, to_text s value)) <$> entries))%list.
Proof.
  revert q. induction entries as [|[k v] entries IH]; intros q; simpl.
  - by rewrite app_nil_r.
  - rewrite IH. unfold append. by rewrite <- app_assoc.
Qed.

Lemma queryBuilder_map s entries :
  queryBuilder s entries
  = (fun '(key, value) => (key, to_text s value)) <$> entries.
Proof. unfold queryBuilder. by rewrite queryBuilder_from. Qed.

Lemma endpointParams_entries_map s fields quantity :
  list_to_map (endpointParams_entries s fields quantity)
  = endpointParamsBuilder s fields quantity.
Proof.
  unfold endpointParams_entries, endpointParamsBuilder.
  destruct fields as [| | | | |?|a]; destruct quantity; try reflexivity;
    destruct (arr_at s a) as [|e es]; try reflexivity;
    simpl; apply map_eq; intros k;
    destruct (decide (k = "_fields")) as [->|?];
    destruct (decide (k = "per_page")) as [?|?]; try discriminate;
    subst; simplify_map_eq; done.
Qed.
End QueryFacts.

(** X1: [queryBuilder] yields one pair per property of its argument, with
    the same names in the same order; a value that is a string is taken
    as it is, whatever the host; and the query of two lists of entries put
    one after the other is the two queries put one after the other. *)
Theorem queryBuilder_keeps_entries {host : Host} s entries :
  length (queryBuilder s entries) = length entries /\
  (queryBuilder s entries).*1 = entries.*1 /\
  (forall i key text,
     entries !! i = Some (key, VStr text) ->
     queryBuilder s entries !! i = Some (key, text)) /\
  (forall more,
     queryBuilder s (entries ++ more)
     = (queryBuilder s entries ++ queryBuilder s more)%list).
Proof.
  rewrite queryBuilder_map.
  split; [by rewrite length_fmap|]. split.
  { rewrite <- list_fmap_compose. apply list_fmap_ext.
    by intros i [k v] _. }
  split.
  - intros i key text Hi. by rewrite list_lookup_fmap, Hi.
  - intros more. by rewrite !queryBuilder_map, fmap_app.
Qed.

Lemma queryBuilder_keeps_entries_witness :
  queryBuilder (host := example_host) example_store
    [("slug", VStr "my-post"); ("per_page", VNum 5)] !! 0%nat
  = Some ("slug", "my-post").
Proof.
  destruct (queryBuilder_keeps_entries (host := example_host) example_store
              [("slug", VStr "my-post"); ("per_page", VNum 5)])
    as (_ & _ & Hstr & _).
  apply Hstr. reflexivity.
Defined.

(** X2: the object [endpointParamsBuilder] returns has its properties in
    the order [_fields], [per_page], each at most once, and
    [queryBuilder] turns it into a query in that order: for a non-empty
    array of fields and a number, the pair [_fields] with the joined
    fields, then the pair [per_page] with the text of the number; for
    neither, the empty query. *)
Theorem query_of_endpointParams {host : Host} s fields quantity :
  list_to_map (endpointParams_entries s fields quantity)
  = endpointParamsBuilder s fields quantity /\
  sublist (queryBuilder s (endpointParams_entries s fields quantity)).*1
          ["_fields"; "per_page"] /\
  (forall a n,
     fields = VArr a -> arr_at s a ≠ [] -> quantity = VNum n ->
     queryBuilder s (endpointParams_entries s fields quantity)
     = [("_fields", join "," (join_text s <$> first_occurrences (arr_at s a)));
        ("per_page", ToString s (VNum n))]) /\
  ((forall a, fields = VArr a -> arr_at s a = []) ->
   (forall n, quantity ≠ VNum n) ->
   queryBuilder s (endpointParams_entries s fields quantity) = []).
Proof.
  split; [apply endpointParams_entries_map|].
  rewrite queryBuilder_map. unfold endpointParams_entries.
  split; [|split].
  - destruct fields as [| | | | |?|a]; destruct quantity; simpl;
      try match goal with
          | |- context [arr_at s ?b] => destruct (arr_at s b) as [|e es]
          end; simpl;
      repeat first [ apply sublist_nil | apply sublist_skip
                   | apply sublist_cons ].
  - intros a n -> Hne ->.
    destruct (arr_at s a) as [|e es] eqn:E; [done|].
    simpl. by rewrite uniq_first_occurrences.
  - intros Hnone Hnum.
    destruct fields as [| | | | |?|a]; destruct quantity as [| | |q| | |];
      try reflexivity; try (by destruct (Hnum q));
      by rewrite (Hnone _ eq_refl).
Qed.

Lemma query_of_endpointParams_witness :
  queryBuilder (host := example_host) example_store
    (endpointParams_entries (host := example_host) example_store (VArr 11) (VNum 5))
  = [("_fields", "a,b"); ("per_page", "5")] /\
  queryBuilder (host := example_host) example_store
    (endpointParams_entries (host := example_host) example_store (VArr 4) VUndef)
  = [].
Proof.
  split.
  - destruct (query_of_endpointParams (host := example_host) example_store
                (VArr 11) (VNum 5)) as (_ & _ & Hboth & _).
    rewrite (Hboth 11%nat 5%Z eq_refl); [reflexivity|discriminate|reflexivity].
  - destruct (query_of_endpointParams (host := example_host) example_store
                (VArr 4) VUndef) as (_ & _ & _ & Hnone).
    apply Hnone.
    + intros a [= <-]. reflexivity.
    + intros n. discriminate.
Defined.

(** ** endpointParamsBuilder: duplicates *)

Lemma uniq_snoc_known x es : x ∈ es -> uniq (es ++ [x]) = uniq es.
Proof.
  intros Hin. unfold uniq at 1. rewrite foldl_app. simpl.
  fold (uniq es).
  rewrite decide_True; [done|].
  rewrite uniq_first_occurrences. by apply elem_of_first_occurrences.
Qed.

Lemma filter_elements {A} (P : A -> Prop) `{forall x, Decision (P x)} (l : list A) :
  (forall x, x ∈ l -> P x) -> filter P l = l.
Proof.
  induction l as [|x l IH]; intros HP; [done|].
  rewrite filter_cons_True by (apply HP; left).
  rewrite IH; [done|]. intros y Hy. apply HP. by right.
Qed.

Lemma first_occurrences_NoDup es : NoDup es -> first_occurrences es = es.
Proof.
  induction 1 as [|x es Hnin _ IH]; simpl; [done|].
  rewrite IH. f_equal. apply filter_elements.
  intros y Hy ->. contradiction.
Qed.

(** X3: duplicates in [fields] do not matter to [endpointParamsBuilder]:
    an array with one more element, equal to one it has, gives the same
    parameters; an array without duplicates is joined element by element
    in its order; and removing duplicates twice removes no more than
    once. *)
Theorem endpointParamsBuilder_duplicates {host : Host} s quantity :
  (forall a b x,
     x ∈ arr_at s a ->
     arr_at s b = (arr_at s a ++ [x])%list ->
     endpointParamsBuilder s (VArr b) quantity
     = endpointParamsBuilder s (VArr a) quantity) /\
  (forall a,
     NoDup (arr_at s a) -> arr_at s a ≠ [] ->
     endpointParamsBuilder s (VArr a) quantity !! "_fields"
     = Some (VStr (join "," (join_text s <$> arr_at s a)))) /\
  (forall es, uniq (uniq es) = uniq es).
Proof.
  split; [|split].
  - intros a b x Hin Hb. unfold endpointParamsBuilder. rewrite Hb.
    destruct (arr_at s a) as [|e es] eqn:E; [by apply elem_of_nil in Hin|].
    change ((e :: es) ++ [x])%list with (e :: (es ++ [x]))%list.
    cbv beta iota zeta.
    change (e :: (es ++ [x]))%list with ((e :: es) ++ [x])%list.
    by rewrite (uniq_snoc_known x (e :: es) Hin).
  - intros a Hnodup Hne. unfold endpointParamsBuilder.
    assert (Hkey : forall (p : gmap string value),
              match quantity with
              | VNum _ => <["per_page" := quantity]> p
              | _ => p
              end !! "_fields" = p !! "_fields").
    { intros p. destruct quantity; try done. by rewrite lookup_insert_ne. }
    rewrite Hkey.
    destruct (arr_at s a) as [|e es] eqn:E; [done|].
    rewrite lookup_insert_eq, uniq_first_occurrences.
    by rewrite (first_occurrences_NoDup _ Hnodup).
  - intros es. rewrite !uniq_first_occurrences.
    apply first_occurrences_NoDup, NoDup_first_occurrences.
Qed.

Lemma endpointParamsBuilder_duplicates_witness :
  endpointParamsBuilder (host := example_host) example_store (VArr 11) (VNum 5)
  = endpointParamsBuilder (host := example_host)
      (mkState ∅ {[ 0%nat := [VStr "a"; VStr "b"] ]} []) (VArr 0) (VNum 5).
Proof.
  pose (s := mkState ∅ (<[1%nat := [VStr "a"; VStr "b"; VStr "a"]]>
                          {[ 0%nat := [VStr "a"; VStr "b"] ]}) []).
  destruct (endpointParamsBuilder_duplicates (host := example_host) s (VNum 5))
    as (Hdup & _).
  transitivity (endpointParamsBuilder (host := example_host) s (VArr 1) (VNum 5));
    [reflexivity|].
  transitivity (endpointParamsBuilder (host := example_host) s (VArr 0) (VNum 5));
    [|reflexivity].
  apply (Hdup 0%nat 1%nat (VStr "a")).
  - change (arr_at s 0) with [VStr "a"; VStr "b"]. left.
  - reflexivity.
Defined.

(** ** slugExtractor: the shape of a slug *)

Lemma split_pieces sep text :
  Forall (fun piece => occurs sep piece = false) (split sep text).
Proof.
  induction text as [|c rest IH]; simpl.
  - by constructor.
  - destruct (Ascii.eqb c sep) eqn:E; [by constructor|].
    destruct (split sep rest) as [|piece pieces].
    + constructor; [|done]. simpl. by rewrite E.
    + inversion IH as [|?? Hpiece Hpieces]; subst.
      constructor; [|done]. simpl. by rewrite E, Hpiece.
Qed.

Lemma upto_free sep seg : occurs sep seg = false -> upto sep seg = seg.
Proof.
  induction seg as [|c seg IH]; simpl; [done|].
  destruct (Ascii.eqb c sep); [done|]. simpl. intros H. by rewrite IH.
Qed.

Lemma upto_app sep seg tail :
  occurs sep seg = false -> upto sep (seg ++ String sep tail) = seg.
Proof.
  induction seg as [|c seg IH]; simpl.
  - by rewrite Ascii.eqb_refl.
  - destruct (Ascii.eqb c sep); [done|]. simpl. intros H. by rewrite IH.
Qed.

(** X4: what [slugExtractor] returns is [undefined] or a string without
    any slash. *)
Theorem slugExtractor_slug_has_no_slash {host : Host} link v :
  slugExtractor link = Return v ->
  v = VUndef \/ exists slug, v = VStr slug /\ occurs "/" slug = false.
Proof.
  unfold slugExtractor. destruct (parse_url link) as [url|]; [|done].
  intros [= <-].
  destruct (split "/" (pathname url) !! 1%nat) as [slug|] eqn:E; simpl.
  - right. exists slug. split; [done|].
    pose proof (split_pieces "/" (pathname url)) as Hall.
    rewrite Forall_lookup in Hall. exact (Hall _ _ E).
  - by left.
Qed.

Lemma slugExtractor_slug_has_no_slash_witness :
  exists slug,
    slugExtractor (host := example_host) "https://x/new/and/more" = Return (VStr slug)
    /\ occurs "/" slug = false.
Proof.
  destruct (slugExtractor_slug_has_no_slash (host := example_host)
              "https://x/new/and/more" (VStr "new"))
    as [H | (slug & [= <-] & Hfree)].
  - reflexivity.
  - discriminate H.
  - exists "new". split; [reflexivity | exact Hfree].
Defined.

(** X5: the slug is the first segment of the path and nothing else: for a
    path that is a slash and a segment without slashes, alone or followed
    by a slash and anything, [slugExtractor] returns that segment. *)
Theorem slugExtractor_ignores_rest {host : Host} link url seg :
  parse_url link = Some url ->
  occurs "/" seg = false ->
  pathname url = "/" ++ seg \/
  (exists tail, pathname url = "/" ++ seg ++ "/" ++ tail) ->
  slugExtractor link = Return (VStr seg).
Proof.
  intros Hparse Hfree Hpath. unfold slugExtractor. rewrite Hparse.
  destruct Hpath as [-> | [tail ->]].
  - change ("/" ++ seg) with (String "/" seg).
    by rewrite split_second, upto_free.
  - change ("/" ++ seg ++ "/" ++ tail) with (String "/" (seg ++ String "/" tail)).
    by rewrite split_second, upto_app.
Qed.

Lemma slugExtractor_ignores_rest_witness :
  slugExtractor (host := example_host) "https://x/new" = Return (VStr "new") /\
  slugExtractor (host := example_host) "https://x/new/and/more" = Return (VStr "new").
Proof.
  split.
  - apply (slugExtractor_ignores_rest (host := example_host)
             "https://x/new" (mkURL "/new") "new");
      [reflexivity | reflexivity | left; reflexivity].
  - apply (slugExtractor_ignores_rest (host := example_host)
             "https://x/new/and/more" (mkURL "/new/and/more") "new");
      [reflexivity | reflexivity | right; exists "and/more"; reflexivity].
Defined.

(** ** detectRedirects: the edges *)

Section DetectEdges.
Context {host : Host}.

Lemma settle_all_no_items (callback : value -> M value) sched acc s :
  settle_all callback [] sched acc s = (acc, s).
Proof. induction sched as [|i sched IH]; simpl; [done|apply IH]. Qed.

Lemma detectRedirects_single posts x s v s1 :
  arr_at s posts = [x] ->
  redirect_post x s = (Return v, s1) ->
  detectRedirects posts [0%nat] s
  = (Return (VArr (fresh_loc (arrs s1))),
     mkState (objs s1) (<[fresh_loc (arrs s1) := flat_item s1 v]> (arrs s1))
             (console s1)).
Proof.
  intros Hposts Hrun.
  rewrite detectRedirects_unfold, Hposts, Promise_all_map_single, Hrun.
  unfold flat. by rewrite bind_singleton.
Qed.
End DetectEdges.

(** X6: on an empty list [detectRedirects] returns a new empty array, in
    whatever order it is asked to resume callbacks: no lookup is made,
    nothing is logged and nothing else in the store changes. *)
Theorem detectRedirects_empty_list {host : Host} posts sched s :
  arr_at s posts = [] ->
  exists out,
    detectRedirects posts sched s
    = (Return (VArr out),
       mkState (objs s) (<[out := []]> (arrs s)) (console s)) /\
    arrs s !! out = None.
Proof.
  intros Hposts. exists (fresh_loc (arrs s)).
  split; [|apply fresh_loc_unused].
  rewrite detectRedirects_unfold, Hposts.
  unfold Promise_all_map. by rewrite settle_all_no_items.
Qed.

Lemma detectRedirects_empty_list_witness :
  exists out,
    detectRedirects (host := example_host) 8 [1; 0]%nat example_store
    = (Return (VArr out),
       mkState (objs example_store) (<[out := []]> (arrs example_store)) []) /\
    arrs example_store !! out = None.
Proof.
  apply (detectRedirects_empty_list (host := example_host) 8 [1; 0]%nat
           example_store).
  reflexivity.
Defined.

(** X7: when the lookup for a post resolves to [undefined] or [null], the
    callback returns that value, and the output of [detectRedirects] for
    the list of that one post holds it in the place of the post. *)
Theorem detectRedirects_passes_on_falsy {host : Host}
    s l o link linkSlug r s1 :
  objs s !! l = Some o ->
  o !! "link" = Some (VStr link) ->
  slugExtractor link = Return linkSlug ->
  field o "slug" ≠ linkSlug ->
  fetchPageBySlug linkSlug s = (Return r, s1) ->
  r = FUndefined \/ r = FNull ->
  redirect_post (VObj l) s = (Return (fetched_value r), s1) /\
  forall posts,
    arr_at s posts = [VObj l] ->
    exists out,
      detectRedirects posts [0%nat] s
      = (Return (VArr out),
         mkState (objs s1) (<[out := [fetched_value r]]> (arrs s1)) (console s1)).
Proof.
  intros Hobj Hlink Hslug Hdiff Hfetch Hr.
  pose proof (redirect_post_falsy s l o link Hobj Hlink linkSlug Hslug Hdiff
                r s1 Hfetch Hr) as Hrun.
  split; [exact Hrun|]. intros posts Hposts. eexists.
  rewrite (detectRedirects_single posts (VObj l) s _ s1 Hposts Hrun).
  by destruct Hr as [-> | ->].
Qed.

Lemma detectRedirects_passes_on_falsy_witness :
  exists out s',
    detectRedirects (host := silent_host) 0 [0%nat] example_store
    = (Return (VArr out), s') /\
    arr_at s' out = [VUndef].
Proof.
  destruct (detectRedirects_passes_on_falsy (host := silent_host)
              example_store 1 moved_post "https://x/new/" (VStr "new")
              FUndefined example_store) as [_ Hlist].
  - reflexivity.
  - reflexivity.
  - reflexivity.
  - vm_compute. discriminate.
  - reflexivity.
  - by left.
  - destruct (Hlist 0%nat) as [out Hrun]; [reflexivity|].
    eexists out, _. split; [exact Hrun|].
    unfold arr_at. simpl. by rewrite lookup_insert_eq.
Defined.

(** X8: a lookup with several results makes one post into several items,
    when the post has a title (its [title] is neither [undefined] nor
    [null]): the output of [detectRedirects] for the list of that one post
    is the merged first result, a new object, followed by the other
    results as they were fetched.  When the post's [title] is [undefined]
    or [null], nothing is merged and the output is that one post. *)
Theorem detectRedirects_expands {host : Host}
    s l o link linkSlug a s1 first rest o1 :
  objs s !! l = Some o ->
  o !! "link" = Some (VStr link) ->
  slugExtractor link = Return linkSlug ->
  field o "slug" ≠ linkSlug ->
  fetchPageBySlug linkSlug s = (Return (FArray a), s1) ->
  arr_at s1 a = first :: rest ->
  objs s1 !! l = Some o1 ->
  forall posts,
    arr_at s posts = [VObj l] ->
    (~ nullish (field o1 "title") ->
     exists out m s',
       detectRedirects posts [0%nat] s = (Return (VArr out), s') /\
       arr_at s' out = VObj m :: rest /\
       length (arr_at s' out) = length (arr_at s1 a) /\
       objs s1 !! m = None /\
       out ≠ a /\ arr_at s' a = VObj m :: rest) /\
    (nullish (field o1 "title") ->
     exists out s',
       detectRedirects posts [0%nat] s = (Return (VArr out), s') /\
       arr_at s' out = [VObj l] /\
       objs s' = objs s1).
Proof.
  intros Hobj Hlink Hslug Hdiff Hfetch Harr Hobj1 posts Hposts. split.
  - intros Htitle.
    destruct (title_rendered s1 _ Htitle) as [rendered Hrendered].
    pose proof (redirect_post_merge s l o link Hobj Hlink linkSlug Hslug Hdiff
                  a s1 first rest o1 rendered Hfetch Harr Hobj1 Hrendered)
      as Hrun.
    simpl in Hrun.
    set (t := fresh_loc (objs s1)) in *.
    set (objs1 := <[t := {[ "rendered" := rendered ]}]> (objs s1)) in *.
    set (m := fresh_loc objs1) in *.
    rewrite (detectRedirects_single posts (VObj l) s _ _ Hposts Hrun).
    simpl.
    set (arrs2 := <[a := VObj m :: rest]> (arrs s1)).
    assert (Ha : arrs2 !! a = Some (VObj m :: rest)) by apply lookup_insert_eq.
    assert (Hout : fresh_loc arrs2 ≠ a).
    { intros Heq. pose proof (fresh_loc_unused arrs2) as Hnone.
      rewrite Heq in Hnone. congruence. }
    assert (Hflat : arr_at (mkState (<[m := <["title" := VObj t]>
                      (<["image" := field o1 "image"]>
                         (<["categories" := field o1 "categories"]>
                            (own_props s1 first)))]> objs1) arrs2 (console s1)) a
                    = VObj m :: rest).
    { unfold arr_at. simpl. by rewrite Ha. }
    rewrite Hflat.
    eexists (fresh_loc arrs2), m, _. split; [reflexivity|].
    split; [unfold arr_at; simpl; by rewrite lookup_insert_eq|].
    split; [unfold arr_at at 1; simpl; by rewrite lookup_insert_eq, Harr|].
    split.
    { assert (Hm1 : objs1 !! m = None) by apply fresh_loc_unused.
      eapply lookup_weaken_None; [exact Hm1|].
      apply insert_subseteq, fresh_loc_unused. }
    split; [exact Hout|].
    unfold arr_at. simpl. by rewrite lookup_insert_ne, Ha.
  - intros Htitle.
    destruct (redirect_post_untitled s l o link linkSlug a s1 first rest o1
                Hobj Hlink Hslug Hdiff Hfetch Harr Hobj1 Htitle) as [e Hrun].
    rewrite (detectRedirects_single posts (VObj l) s _ _ Hposts Hrun).
    eexists _, _. split; [reflexivity|]. simpl.
    split; [|reflexivity].
    unfold arr_at. simpl. by rewrite lookup_insert_eq.
Qed.

Lemma detectRedirects_expands_witness :
  (exists out m s',
     detectRedirects (host := example_host) 0 [0%nat] wide_store
     = (Return (VArr out), s') /\
     arr_at s' out = [VObj m; VObj 6]) /\
  (exists out s',
     detectRedirects (host := example_host) 21 [0%nat]
       (mkState (objs untitled_store)
                (<[21%nat := [VObj 20]]> (arrs untitled_store)) [])
     = (Return (VArr out), s') /\
     arr_at s' out = [VObj 20]).
Proof.
  split.
  - destruct (detectRedirects_expands (host := example_host)
                wide_store 1 moved_post "https://x/new/" (VStr "new")
                3 wide_store (VObj 3) [VObj 6] moved_post) with (posts := 0%nat)
      as [Hmerge _].
    + reflexivity.
    + reflexivity.
    + reflexivity.
    + vm_compute. discriminate.
    + reflexivity.
    + reflexivity.
    + reflexivity.
    + reflexivity.
    + destruct Hmerge as (out & m & s' & Hrun & Hout & _).
      { intros [H | H]; discriminate H. }
      exists out, m, s'. split; [exact Hrun | exact Hout].
  - set (st := mkState (objs untitled_store)
                       (<[21%nat := [VObj 20]]> (arrs untitled_store)) []).
    destruct (detectRedirects_expands (host := example_host)
                st 20 untitled_post "https://x/new/" (VStr "new")
                3 st (VObj 3) [] untitled_post) with (posts := 21%nat)
      as [_ Hkeep].
    + reflexivity.
    + reflexivity.
    + reflexivity.
    + vm_compute. discriminate.
    + reflexivity.
    + reflexivity.
    + reflexivity.
    + reflexivity.
    + destruct Hkeep as (out & s' & Hrun & Hout & _); [by left|].
      exists out, s'. split; [exact Hrun | exact Hout].
Defined.

(** X9: the merge is all or nothing: when the lookup has results but the
    post has no title ([undefined] or [null]), reading [title.rendered]
    throws before anything is written; the callback logs the error and
    returns the post, and the fetched array and all objects are as the
    lookup left them. *)
Theorem redirect_post_without_title {host : Host}
    s l o link linkSlug a s1 first rest o1 :
  objs s !! l = Some o ->
  o !! "link" = Some (VStr link) ->
  slugExtractor link = Return linkSlug ->
  field o "slug" ≠ linkSlug ->
  fetchPageBySlug linkSlug s = (Return (FArray a), s1) ->
  arr_at s1 a = first :: rest ->
  objs s1 !! l = Some o1 ->
  nullish (field o1 "title") ->
  exists e,
    redirect_post (VObj l) s
    = (Return (VObj l), logged "Error in detectRedirects:" e s1) /\
    arr_at (logged "Error in detectRedirects:" e s1) a = first :: rest /\
    objs (logged "Error in detectRedirects:" e s1) = objs s1.
Proof.
  intros Hobj Hlink Hslug Hdiff Hfetch Harr Hobj1 Htitle.
  apply (read_step_throws s1 _ (Dot "rendered")) in Htitle as [e He].
  simpl in He. exists e. split; [|split; [exact Harr|reflexivity]].
  apply redirect_post_caught.
  rewrite (redirect_attempt_start s l o link Hobj Hlink), Hslug,
    decide_True by done.
  unfold bind at 1. rewrite Hfetch.
  unfold bind at 1, read at 1. rewrite Harr.
  unfold bind at 1. unfold bind at 1, read at 1.
  unfold bind at 1, get_prop at 1, eval at 1. rewrite (prop_obj _ _ _ _ Hobj1).
  unfold bind at 1, get_prop at 1, eval at 1. rewrite (prop_obj _ _ _ _ Hobj1).
  unfold bind at 1, get_prop at 1, eval at 1. rewrite (prop_obj _ _ _ _ Hobj1).
  unfold bind at 1, get_prop at 1, eval at 1. by rewrite He.
Qed.

Lemma redirect_post_without_title_witness :
  exists e,
    redirect_post (host := example_host) (VObj 20) untitled_store
    = (Return (VObj 20), logged "Error in detectRedirects:" e untitled_store) /\
    arr_at (logged "Error in detectRedirects:" e untitled_store) 3 = [VObj 3].
Proof.
  destruct (redirect_post_without_title (host := example_host)
              untitled_store 20 untitled_post "https://x/new/" (VStr "new")
              3 untitled_store (VObj 3) [] untitled_post)
    as (e & Hrun & Harr & _).
  - reflexivity.
  - reflexivity.
  - reflexivity.
  - vm_compute. discriminate.
  - reflexivity.
  - reflexivity.
  - reflexivity.
  - by left.
  - exists e. split; [exact Hrun | exact Harr].
Defined.

(** ** detectRedirects: lists that come back as they are *)

Lemma detectRedirects_resolved_run {host : Host} posts sched s :
  sched ≡ₚ seq 0 (length (arr_at s posts)) ->
  Forall (fun x => exists l o, x = VObj l /\ objs s !! l = Some o /\ resolved o)
         (arr_at s posts) ->
  detectRedirects posts sched s
  = (Return (VArr (fresh_loc (arrs s))),
     mkState (objs s) (<[fresh_loc (arrs s) := arr_at s posts]> (arrs s))
             (console s)).
Proof.
  intros Hperm Hall. rewrite detectRedirects_unfold.
  destruct (Promise_all_map_slots
              (fun st => st = s) (fun x v => v = x)
              redirect_post (arr_at s posts) sched s)
    as (slots & s1 & -> & -> & Hslots); [|done|done|].
  { intros x st Hx ->. exists x, s. split; [|done].
    rewrite Forall_forall in Hall.
    destruct (Hall x Hx) as (l & o & -> & Hl & link & Hlink & Hslug).
    by eapply redirect_post_resolved. }
  assert (slots = arr_at s posts) as ->.
  { symmetry. apply list_eq_Forall2. eapply Forall2_impl; [done|].
    by intros ?? ->. }
  rewrite flat_objects; [done|].
  eapply Forall_impl; [done|]. intros x (l & o & -> & _). eauto.
Qed.

(** X10: for a list of resolved posts [detectRedirects] makes no lookup:
    with any two hosts that parse URLs alike, whatever their
    collaborators do, it returns the same array and leaves the same
    store. *)
Theorem detectRedirects_resolved_needs_no_lookup
    (host1 host2 : Host) posts sched s :
  (forall link, parse_url (Host := host1) link = parse_url (Host := host2) link) ->
  sched ≡ₚ seq 0 (length (arr_at s posts)) ->
  Forall (fun x => exists l o, x = VObj l /\ objs s !! l = Some o /\
                               resolved (host := host1) o)
         (arr_at s posts) ->
  detectRedirects (host := host1) posts sched s
  = detectRedirects (host := host2) posts sched s.
Proof.
  intros Hparse Hperm Hall.
  rewrite (detectRedirects_resolved_run (host := host1) posts sched s Hperm Hall).
  rewrite (detectRedirects_resolved_run (host := host2) posts sched s Hperm);
    [done|].
  eapply Forall_impl; [exact Hall|].
  intros x (l & o & -> & Hl & link & Hlink & Hslug).
  exists l, o. split; [done|]. split; [done|].
  exists link. split; [done|].
  unfold slugExtractor in *. by rewrite <- Hparse.
Qed.

Lemma detectRedirects_resolved_needs_no_lookup_witness :
  detectRedirects (host := example_host) 12 [1; 0]%nat example_store
  = detectRedirects (host := silent_host) 12 [1; 0]%nat example_store.
Proof.
  apply detectRedirects_resolved_needs_no_lookup.
  - reflexivity.
  - vm_compute. apply perm_swap.
  - change (arr_at example_store 12) with [VObj 6; VObj 6].
    repeat constructor;
      (exists 6%nat, settled_post; split; [reflexivity|];
       split; [reflexivity|];
       exists "https://x/same/"; split; reflexivity).
Defined.

(** X11: a list in which every post is resolved already, has a link that
    is no URL, or a lookup that is rejected, comes back as it is: with
    collaborators that leave existing objects alone and in whatever order
    the callbacks resume, the output holds the same objects in the same
    order, and they have the properties they had. *)
Theorem detectRedirects_same_list {host : Host} posts sched s :
  host_keeps_objects host ->
  sched ≡ₚ seq 0 (length (arr_at s posts)) ->
  Forall (fun x => exists l o, x = VObj l /\ objs s !! l = Some o /\
                               (resolved o \/ fails o))
         (arr_at s posts) ->
  exists out s',
    detectRedirects posts sched s = (Return (VArr out), s') /\
    arr_at s' out = arr_at s posts /\
    objs s ⊆ objs s'.
Proof.
  intros frame Hperm Hall. rewrite detectRedirects_unfold.
  rewrite Forall_forall in Hall.
  destruct (Promise_all_map_slots
              (fun st => objs s ⊆ objs st) (fun x v => v = x)
              redirect_post (arr_at s posts) sched s)
    as (slots & s1 & -> & Hsub & Hslots); [|done|done|].
  { intros x st Hx Hst.
    destruct (Hall x Hx) as (l & o & -> & Hl & Hcase).
    destruct (redirect_post_returns (VObj l) st) as (v & st' & Hrun).
    exists v, st'. split; [done|]. split.
    { etrans; [done|]. by eapply keeps_redirect_post. }
    pose proof (lookup_weaken _ _ _ _ Hl Hst) as Hl'.
    destruct Hcase as [(link & Hlink & Hslug) | (link & Hlink & Hfail)].
    - rewrite (redirect_post_resolved st l o link Hl' Hlink Hslug) in Hrun.
      congruence.
    - destruct Hfail as [Hparse | (linkSlug & Hslug & Hdiff & Hreject)].
      + rewrite (redirect_post_invalid_link st l o link Hl' Hlink Hparse) in Hrun.
        congruence.
      + destruct (Hreject st) as (e & st1 & Hfetch).
        rewrite (redirect_post_rejected st l o link Hl' Hlink linkSlug Hslug
                   Hdiff e st1 Hfetch) in Hrun.
        congruence. }
  assert (slots = arr_at s posts) as ->.
  { symmetry. apply list_eq_Forall2. eapply Forall2_impl; [done|].
    by intros ?? ->. }
  eexists _, _. split; [done|]. rewrite arr_at_alloc. simpl.
  split; [|done].
  apply flat_objects. apply Forall_forall. intros x Hx.
  destruct (Hall x Hx) as (l & o & -> & _). eauto.
Qed.

Lemma detectRedirects_same_list_witness :
  exists out s',
    detectRedirects (host := example_host) 20 [1; 2; 0]%nat troubled_store
    = (Return (VArr out), s') /\
    arr_at s' out = [VObj 7; VObj 6; VObj 8].
Proof.
  destruct (detectRedirects_same_list (host := example_host)
              20 [1; 2; 0]%nat troubled_store example_host_keeps)
    as (out & s' & Hrun & Hsame & _).
  - vm_compute. apply Permutation_sym.
    apply perm_trans with [1; 0; 2]%nat; [apply perm_swap|].
    apply perm_skip, perm_swap.
  - change (arr_at troubled_store 20) with [VObj 7; VObj 6; VObj 8].
    repeat constructor.
    + exists 7%nat, broken_post. split; [reflexivity|]. split; [reflexivity|].
      right. exists "not a url". split; [reflexivity|]. left. reflexivity.
    + exists 6%nat, settled_post. split; [reflexivity|]. split; [reflexivity|].
      left. exists "https://x/same/". split; reflexivity.
    + exists 8%nat, unlucky_post. split; [reflexivity|]. split; [reflexivity|].
      right. exists "https://x/down/". split; [reflexivity|]. right.
      exists (VStr "down"). split; [reflexivity|].
      split; [vm_compute; discriminate|].
      intros st. exists (Rejected (VStr "503")), st. reflexivity.
  - exists out, s'. split; [exact Hrun | exact Hsame].
Defined.

(** ** addImagesToPost: the whole list *)

Section ImagesList.
Context {host : Host}.

(** As [settle_all_slots], for a relation that speaks about the store and
    stays true when the store gains objects. *)
Lemma settle_all_slots_stable (P : state -> Prop)
    (R : state -> value -> value -> Prop)
    (callback : value -> M value) (items : list value) :
  (forall st st' x v, R st x v -> objs st ⊆ objs st' -> R st' x v) ->
  (forall x st, x ∈ items -> P st ->
     exists v st', callback x st = (Return v, st') /\ P st' /\
                   objs st ⊆ objs st' /\ R st' x v) ->
  forall sched slots s,
    P s -> length slots = length items ->
    exists slots' s',
      settle_all callback items sched (Return slots) s = (Return slots', s') /\
      P s' /\ objs s ⊆ objs s' /\ length slots' = length items /\
      forall i x, items !! i = Some x ->
        (i ∈ sched -> exists v, slots' !! i = Some v /\ R s' x v) /\
        (i ∉ sched -> slots' !! i = slots !! i).
Proof.
  intros Hstable Hcb.
  induction sched as [|i sched IH]; intros slots s HP Hlen; simpl.
  - exists slots, s. split; [done|]. split; [done|]. split; [done|].
    split; [done|]. intros j x Hj. split; [|done].
    intros Hin. by apply elem_of_nil in Hin.
  - destruct (items !! i) as [item|] eqn:Hitem.
    + assert (Hmem : item ∈ items) by (by eapply list_elem_of_lookup_2).
      destruct (Hcb item s Hmem HP) as (v & s1 & -> & HP1 & Hsub1 & HR).
      destruct (IH (<[i := v]> slots) s1 HP1)
        as (slots' & s' & -> & HP' & Hsub' & Hlen' & Hslots).
      { by rewrite length_insert. }
      exists slots', s'. split; [done|]. split; [done|].
      split; [by etrans|]. split; [done|].
      intros j x Hj. destruct (Hslots j x Hj) as [Hyes Hno]. split.
      * intros Hin. destruct (decide (j ∈ sched)) as [Hs|Hs]; [by apply Hyes|].
        apply elem_of_cons in Hin as [->|?]; [|done].
        exists v. split.
        -- rewrite (Hno Hs). apply list_lookup_insert_eq. rewrite Hlen.
           by eapply lookup_lt_Some.
        -- assert (x = item) as -> by congruence. by eapply Hstable.
      * intros Hnin. apply not_elem_of_cons in Hnin as [Hne Hnin].
        rewrite (Hno Hnin). by apply list_lookup_insert_ne.
    + destruct (IH slots s HP Hlen)
        as (slots' & s' & -> & HP' & Hsub' & Hlen' & Hslots).
      exists slots', s'. split; [done|]. split; [done|]. split; [done|].
      split; [done|].
      intros j x Hj. destruct (Hslots j x Hj) as [Hyes Hno]. split.
      * intros Hin. apply elem_of_cons in Hin as [->|?]; [congruence|].
        by apply Hyes.
      * intros Hnin. apply not_elem_of_cons in Hnin as [Hne Hnin].
        by apply Hno.
Qed.

Lemma Promise_all_map_add_image_returns items sched s :
  exists slots s',
    Promise_all_map add_image items sched s = (Return slots, s') /\
    length slots = length items.
Proof.
  destruct (settle_all_slots (fun _ => True) (fun _ _ => True) add_image items)
    with (sched := sched) (s := s) (slots := replicate (length items) VUndef)
    as (slots & s' & Hrun & _ & Hlen & _).
  - intros x st _ _. destruct (add_image_returns x st) as (v & st' & ->). eauto.
  - done.
  - apply length_replicate.
  - exists slots, s'. by split.
Qed.

(** After the check on the first item. *)
Lemma addImagesToPost_after_check data sched s first image fm :
  index s (VArr data) 0 = Return first ->
  prop s first "image" = Return image ->
  truthy image = false ->
  prop s first "featured_media" = Return fm ->
  fm ≠ VNum 0 ->
  addImagesToPost data sched s
  = match Promise_all_map add_image (arr_at s data) sched s with
    | (Return postsWithImages, s1) =>
        (Return (VArr (fresh_loc (arrs s1))),
         mkState (objs s1) (<[fresh_loc (arrs s1) := postsWithImages]> (arrs s1))
                 (console s1))
    | (Throw e, s1) => (Throw e, s1)
    end.
Proof.
  intros Hfirst Himage Hfalsy Hfm Hne. unfold addImagesToPost.
  unfold bind at 1, get_index at 1, eval at 1. rewrite Hfirst.
  unfold bind at 1, get_prop at 1, eval at 1. rewrite Himage, Hfalsy.
  unfold bind at 1. unfold bind at 1, get_prop at 1, eval at 1. rewrite Hfm.
  unfold ret at 1. rewrite bool_decide_eq_false_2 by done.
  unfold bind at 1, read at 1. unfold bind at 1.
  by destruct (Promise_all_map _ _ _ _) as [[slots|e] s1].
Qed.

Lemma add_image_offline x st :
  (forall path st0, exists e st1, fetchData path st0 = (Throw e, st1)) ->
  exists st', add_image x st = (Return x, st').
Proof.
  intros Hoff. unfold add_image, try_catch, add_image_attempt.
  unfold bind at 1, get_prop at 1, eval at 1.
  destruct (prop st x "featured_media") as [fm|e]; [|by eexists].
  unfold bind at 1.
  destruct (getImageLink fm st) as [[link|e] s1] eqn:E; [|by eexists].
  exfalso.
  unfold getImageLink, try_catch in E. rewrite image_link_attempt_walk in E.
  destruct (Hoff ("media/" ++ to_text st fm) st) as (e & s2 & Hfetch).
  rewrite Hfetch in E. discriminate E.
Qed.
End ImagesList.

(** X12: [addImagesToPost] rejects exactly when the array has no first
    item or that item is [undefined] or [null], and then it has changed
    nothing; in every other case it returns an array, whatever the
    collaborators do and in whatever order the callbacks resume. *)
Theorem addImagesToPost_rejects_iff {host : Host} data sched s :
  (nullish (default VUndef (arr_at s data !! 0%nat)) ->
   exists e, addImagesToPost data sched s = (Throw e, s)) /\
  (~ nullish (default VUndef (arr_at s data !! 0%nat)) ->
   exists out s', addImagesToPost data sched s = (Return (VArr out), s')).
Proof.
  set (first := default VUndef (arr_at s data !! 0%nat)).
  assert (Hfirst : index s (VArr data) 0 = Return first) by done.
  split.
  - intros Hnull.
    apply (read_step_throws s first (Dot "image")) in Hnull as [e He].
    exists e. unfold addImagesToPost.
    unfold bind at 1, get_index at 1, eval at 1. rewrite Hfirst.
    unfold bind at 1, get_prop at 1, eval at 1. simpl in He. by rewrite He.
  - intros Hsome.
    destruct (prop s first "image") as [image|e] eqn:Himage.
    2:{ exfalso. apply Hsome, (read_step_throws s first (Dot "image")). eauto. }
    destruct (prop s first "featured_media") as [fm|e] eqn:Hfm.
    2:{ exfalso. apply Hsome, (read_step_throws s first (Dot "featured_media")).
        eauto. }
    destruct (truthy image) eqn:Htruthy.
    { exists data, s. unfold addImagesToPost.
      unfold bind at 1, get_index at 1, eval at 1. rewrite Hfirst.
      unfold bind at 1, get_prop at 1, eval at 1. by rewrite Himage, Htruthy. }
    destruct (decide (fm = VNum 0)) as [->|Hne].
    { exists data, s. unfold addImagesToPost.
      unfold bind at 1, get_index at 1, eval at 1. rewrite Hfirst.
      unfold bind at 1, get_prop at 1, eval at 1. rewrite Himage, Htruthy.
      unfold bind at 1. unfold bind at 1, get_prop at 1, eval at 1.
      by rewrite Hfm. }
    rewrite (addImagesToPost_after_check data sched s first image fm)
      by done.
    destruct (Promise_all_map_add_image_returns (arr_at s data) sched s)
      as (slots & s1 & -> & _).
    eauto.
Qed.

Lemma addImagesToPost_rejects_iff_witness :
  (exists e, addImagesToPost (host := example_host) 8 [] example_store
             = (Throw e, example_store)) /\
  (exists out s', addImagesToPost (host := example_host) 13 [1; 0]%nat example_store
                  = (Return (VArr out), s')).
Proof.
  split.
  - destruct (addImagesToPost_rejects_iff (host := example_host)
                8 [] example_store) as [Hthrow _].
    apply Hthrow. left. reflexivity.
  - destruct (addImagesToPost_rejects_iff (host := example_host)
                13 [1; 0]%nat example_store) as [_ Hret].
    apply Hret. intros [H | H]; discriminate H.
Defined.

(** X13: when the check on the first item does not stop it,
    [addImagesToPost] returns an array as long as its input, with
    collaborators that leave existing objects alone and in whatever order
    the callbacks resume.  The place of every item that is an object holds
    what [getImageLink] gave for the item's [featured_media], in a store
    that has the objects of the store before the call: when it raised, the
    item itself; when it returned a link, a new object, one the store did
    not have, with all the properties of the item and [image] set to that
    link.  So an item for which [getImageLink] returns one and the same
    link in all such stores is replaced by a new object with that image,
    and an item for which it raises in all of them stays as it is. *)
Theorem addImagesToPost_enriches {host : Host} data sched s first image fm :
  host_keeps_objects host ->
  sched ≡ₚ seq 0 (length (arr_at s data)) ->
  index s (VArr data) 0 = Return first ->
  prop s first "image" = Return image ->
  truthy image = false ->
  prop s first "featured_media" = Return fm ->
  fm ≠ VNum 0 ->
  exists out s',
    addImagesToPost data sched s = (Return (VArr out), s') /\
    length (arr_at s' out) = length (arr_at s data) /\
    objs s ⊆ objs s' /\
    (forall i l o,
       arr_at s data !! i = Some (VObj l) ->
       objs s !! l = Some o ->
       exists v st0 r st1,
         arr_at s' out !! i = Some v /\
         objs s ⊆ objs st0 /\ objs st1 ⊆ objs s' /\
         getImageLink (field o "featured_media") st0 = (r, st1) /\
         ((exists e, r = Throw e /\ v = VObj l) \/
          (exists link m, r = Return link /\ v = VObj m /\
                          objs s !! m = None /\
                          objs s' !! m = Some (<["image" := link]> o)))) /\
    (forall i l o link,
       arr_at s data !! i = Some (VObj l) ->
       objs s !! l = Some o ->
       (forall st, objs s ⊆ objs st ->
          exists st1, getImageLink (field o "featured_media") st
                      = (Return link, st1)) ->
       exists m, arr_at s' out !! i = Some (VObj m) /\
                 objs s !! m = None /\
                 objs s' !! m = Some (<["image" := link]> o)) /\
    (forall i l o,
       arr_at s data !! i = Some (VObj l) ->
       objs s !! l = Some o ->
       (forall st, objs s ⊆ objs st ->
          exists e st1, getImageLink (field o "featured_media") st
                        = (Throw e, st1)) ->
       arr_at s' out !! i = Some (VObj l)).
Proof.
  intros frame Hperm Hfirst Himage Hfalsy Hfm Hne.
  rewrite (addImagesToPost_after_check data sched s first image fm) by done.
  set (R := fun (st : state) (x v : value) =>
              forall l o, x = VObj l -> objs s !! l = Some o ->
                exists st0 r st1,
                  objs s ⊆ objs st0 /\ objs st1 ⊆ objs st /\
                  getImageLink (field o "featured_media") st0 = (r, st1) /\
                  ((exists e, r = Throw e /\ v = VObj l) \/
                   (exists link m, r = Return link /\ v = VObj m /\
                                   objs s !! m = None /\
                                   objs st !! m = Some (<["image" := link]> o)))).
  destruct (settle_all_slots_stable (fun st => objs s ⊆ objs st) R add_image
              (arr_at s data))
    with (sched := sched) (s := s)
         (slots := replicate (length (arr_at s data)) VUndef)
    as (slots & s1 & Hrun & Hsub & _ & Hlen & Hslots).
  - intros st st' x v HR Hst l o Hx Hl.
    destruct (HR l o Hx Hl) as (st0 & r & st1 & H0 & H1 & Hlink & Hcase).
    exists st0, r, st1. split; [done|]. split; [by etrans|]. split; [done|].
    destruct Hcase as [Hthrow | (link & m & -> & -> & Hm & Hobj)]; [by left|].
    right. exists link, m. split; [done|]. split; [done|]. split; [done|].
    by eapply lookup_weaken.
  - intros x st _ Hst.
    destruct (add_image_returns x st) as (v & st' & Hrun).
    pose proof (keeps_add_image frame x st _ _ Hrun) as Hkeep.
    exists v, st'. split; [done|]. split; [by etrans|]. split; [done|].
    intros l o -> Hl.
    pose proof (lookup_weaken _ _ _ _ Hl Hst) as Hl'.
    pose proof (prop_obj st l o "featured_media" Hl') as Hprop.
    destruct (getImageLink (field o "featured_media") st) as [[link|e] s2] eqn:E.
    + rewrite (add_image_enriched (VObj l) st _ link s2 Hprop E) in Hrun.
      injection Hrun as <- <-.
      pose proof (keeps_getImageLink frame _ st _ _ E) as Hkeep2.
      exists st, (Return link), s2. split; [done|].
      split; [simpl; apply insert_subseteq, fresh_loc_unused|].
      split; [done|].
      right. exists link, (fresh_loc (objs s2)). split; [done|]. split; [done|].
      split.
      { eapply lookup_weaken_None; [apply fresh_loc_unused|]. by etrans. }
      simpl. rewrite lookup_insert_eq. unfold obj_at.
      by rewrite (lookup_weaken _ _ _ _ Hl' Hkeep2).
    + rewrite (add_image_caught (VObj l) st _ e s2 Hprop E) in Hrun.
      injection Hrun as <- <-.
      exists st, (Throw e), s2. split; [done|]. split; [done|].
      split; [done|]. left. eauto.
  - done.
  - apply length_replicate.
  - unfold Promise_all_map. rewrite Hrun.
    assert (Hmain : forall i l o,
              arr_at s data !! i = Some (VObj l) ->
              objs s !! l = Some o ->
              exists v st0 r st1,
                slots !! i = Some v /\
                objs s ⊆ objs st0 /\ objs st1 ⊆ objs s1 /\
                getImageLink (field o "featured_media") st0 = (r, st1) /\
                ((exists e, r = Throw e /\ v = VObj l) \/
                 (exists link m, r = Return link /\ v = VObj m /\
                                 objs s !! m = None /\
                                 objs s1 !! m = Some (<["image" := link]> o)))).
    { intros i l o Hi Hl.
      destruct (Hslots i (VObj l) Hi) as [Hin _].
      destruct Hin as (v & Hv & HR).
      { rewrite Hperm. apply elem_of_seq. apply lookup_lt_Some in Hi. lia. }
      destruct (HR l o eq_refl Hl) as (st0 & r & st1 & H0 & H1 & Hlink & Hcase).
      by exists v, st0, r, st1. }
    eexists _, _. split; [done|]. rewrite arr_at_alloc. simpl.
    split; [done|]. split; [done|].
    split; [exact Hmain|]. split.
    + intros i l o link Hi Hl Hall.
      destruct (Hmain i l o Hi Hl)
        as (v & st0 & r & st1 & Hv & H0 & _ & Hlink & Hcase).
      destruct (Hall st0 H0) as [st1' Hret].
      rewrite Hret in Hlink. injection Hlink as <- <-.
      destruct Hcase as [(e & [=] & _) | (link' & m & [= <-] & -> & Hm & Hobj)].
      by exists m.
    + intros i l o Hi Hl Hall.
      destruct (Hmain i l o Hi Hl)
        as (v & st0 & r & st1 & Hv & H0 & _ & Hlink & Hcase).
      destruct (Hall st0 H0) as (e & st1' & Hthrow).
      rewrite Hthrow in Hlink. injection Hlink as <- <-.
      by destruct Hcase as [(e' & _ & ->) | (link' & m & [=] & _)].
Qed.

Lemma addImagesToPost_enriches_witness :
  (exists out s' v st0 r st1,
     addImagesToPost (host := example_host) 13 [1; 0]%nat example_store
     = (Return (VArr out), s') /\
     length (arr_at s' out) = 2%nat /\
     arr_at s' out !! 1%nat = Some v /\
     getImageLink (host := example_host) (VNum 8) st0 = (r, st1) /\
     ((exists e, r = Throw e /\ v = VObj 1) \/
      (exists link m, r = Return link /\ v = VObj m /\
                      objs example_store !! m = None /\
                      objs s' !! m = Some (<["image" := link]> moved_post)))) /\
  (exists out s',
     addImagesToPost (host := silent_host) 13 [1; 0]%nat example_store
     = (Return (VArr out), s') /\
     arr_at s' out !! 1%nat = Some (VObj 1)).
Proof.
  split.
  - destruct (addImagesToPost_enriches (host := example_host)
                13 [1; 0]%nat example_store (VObj 9) VUndef (VNum 7)
                example_host_keeps)
      as (out & s' & Hrun & Hlen & _ & Hitems & _).
    + vm_compute. apply perm_swap.
    + reflexivity.
    + reflexivity.
    + reflexivity.
    + reflexivity.
    + discriminate.
    + destruct (Hitems 1%nat 1%nat moved_post)
        as (v & st0 & r & st1 & Hv & _ & _ & Hlink & Hcase);
        [reflexivity|reflexivity|].
      exists out, s', v, st0, r, st1. split; [exact Hrun|].
      split; [exact Hlen|]. split; [exact Hv|].
      split; [exact Hlink | exact Hcase].
  - destruct (addImagesToPost_enriches (host := silent_host)
                13 [1; 0]%nat example_store (VObj 9) VUndef (VNum 7))
      as (out & s' & Hrun & _ & _ & _ & _ & Hkept).
    + split; intros x; apply keeps_eval.
    + vm_compute. apply perm_swap.
    + reflexivity.
    + reflexivity.
    + reflexivity.
    + reflexivity.
    + discriminate.
    + exists out, s'. split; [exact Hrun|].
      apply (Hkept 1%nat 1%nat moved_post); [reflexivity|reflexivity|].
      intros st _. exists (Rejected (VStr "offline")).
      eexists. reflexivity.
Defined.

(** X14: when every media fetch is rejected and the list has a first
    item that is neither [undefined] nor [null], [addImagesToPost] still
    returns, in whatever order the callbacks resume, and the array it
    returns holds exactly the items of the input, in their order: no item
    is lost or replaced. *)
Theorem addImagesToPost_offline {host : Host} data sched s :
  (forall path st, exists e st1, fetchData path st = (Throw e, st1)) ->
  sched ≡ₚ seq 0 (length (arr_at s data)) ->
  ~ nullish (default VUndef (arr_at s data !! 0%nat)) ->
  exists out s',
    addImagesToPost data sched s = (Return (VArr out), s') /\
    arr_at s' out = arr_at s data.
Proof.
  intros Hoff Hperm Hsome.
  set (first := default VUndef (arr_at s data !! 0%nat)) in *.
  assert (Hfirst : index s (VArr data) 0 = Return first) by done.
  destruct (prop s first "image") as [image|e] eqn:Himage.
  2:{ exfalso. apply Hsome, (read_step_throws s first (Dot "image")). eauto. }
  destruct (prop s first "featured_media") as [fm|e] eqn:Hfm.
  2:{ exfalso. apply Hsome, (read_step_throws s first (Dot "featured_media")).
      eauto. }
  destruct (truthy image) eqn:Htruthy.
  { exists data, s. split; [|done]. unfold addImagesToPost.
    unfold bind at 1, get_index at 1, eval at 1. rewrite Hfirst.
    unfold bind at 1, get_prop at 1, eval at 1. by rewrite Himage, Htruthy. }
  destruct (decide (fm = VNum 0)) as [->|Hne].
  { exists data, s. split; [|done]. unfold addImagesToPost.
    unfold bind at 1, get_index at 1, eval at 1. rewrite Hfirst.
    unfold bind at 1, get_prop at 1, eval at 1. rewrite Himage, Htruthy.
    unfold bind at 1. unfold bind at 1, get_prop at 1, eval at 1.
    by rewrite Hfm. }
  rewrite (addImagesToPost_after_check data sched s first image fm) by done.
  destruct (Promise_all_map_slots (fun _ => True) (fun x v => v = x)
              add_image (arr_at s data) sched s)
    as (slots & s1 & -> & _ & Hslots); [|done|done|].
  { intros x st _ _. destruct (add_image_offline x st Hoff) as [st' Hrun].
    by exists x, st'. }
  assert (slots = arr_at s data) as ->.
  { symmetry. apply list_eq_Forall2. eapply Forall2_impl; [done|].
    by intros ?? ->. }
  eexists _, _. split; [done|]. by rewrite arr_at_alloc.
Qed.

Lemma addImagesToPost_offline_witness :
  exists out s',
    addImagesToPost (host := silent_host) 13 [1; 0]%nat example_store
    = (Return (VArr out), s') /\
    arr_at s' out = [VObj 9; VObj 1].
Proof.
  destruct (addImagesToPost_offline (host := silent_host)
              13 [1; 0]%nat example_store)
    as (out & s' & Hrun & Hsame).
  - intros path st. exists (Rejected (VStr "offline")), st. reflexivity.
  - vm_compute. apply perm_swap.
  - intros [H | H]; discriminate H.
  - exists out, s'. split; [exact Hrun | exact Hsame].
Defined.

(** ** getImageLink: what it does to the store *)

(** X15: [getImageLink] itself writes nothing but the console: the objects
    and arrays after it are those [fetchData] left; when it returns, the
    console is as [fetchData] left it, and when it raises, the console
    has gained exactly one line, with the error raised. *)
Theorem getImageLink_store {host : Host} fm s r s' :
  getImageLink fm s = (r, s') ->
  exists r0 s1,
    fetchData ("media/" ++ to_text s fm) s = (r0, s1) /\
    objs s' = objs s1 /\ arrs s' = arrs s1 /\
    ((exists link, r = Return link /\ console s' = console s1) \/
     (exists e, r = Throw e /\
                console s' = (console s1 ++ [("Error in getImageLink:", e)])%list)).
Proof.
  intros Hrun.
  destruct (image_link_attempt fm s) as [[link|e] s2] eqn:E.
  - rewrite (getImageLink_passed fm s link s2 E) in Hrun.
    injection Hrun as <- <-.
    rewrite image_link_attempt_walk in E.
    destruct (fetchData _ s) as [[info|e] s1]; [|done].
    injection E as _ <-. eexists _, _. split; [done|].
    split; [done|]. split; [done|]. left. eauto.
  - rewrite (getImageLink_rethrown fm s e s2 E) in Hrun.
    injection Hrun as <- <-.
    rewrite image_link_attempt_walk in E.
    destruct (fetchData _ s) as [[info|e0] s1].
    + injection E as _ <-. eexists _, _. split; [done|].
      split; [done|]. split; [done|]. right. eauto.
    + injection E as _ <-. eexists _, _. split; [done|].
      split; [done|]. split; [done|]. right. eauto.
Qed.

Lemma getImageLink_store_witness :
  exists r0 s1,
    fetchData (Host := example_host) "media/9" example_store = (r0, s1) /\
    objs (logged "Error in getImageLink:" (Rejected (VStr "404")) example_store)
    = objs s1.
Proof.
  destruct (getImageLink_store (host := example_host) (VNum 9) example_store
              (Throw (Rejected (VStr "404")))
              (logged "Error in getImageLink:" (Rejected (VStr "404"))
                      example_store))
    as (r0 & s1 & Hfetch & Hobjs & _).
  - reflexivity.
  - exists r0, s1. split; [exact Hfetch | exact Hobjs].
Defined.
